(** * chrome-leetcode-tracker: submission capture and repository reconciliation

    A shallow embedding of the parts of [background.js] (state manager,
    GitHub scanner, controller) and of the [Problem] model (submission
    poller) that the specification talks about, followed by the theorems
    that relate the specification to the code. *)

From Stdlib Require Import ZArith NArith List Bool Ascii String Decimal Lia.
From stdpp Require Import base option list gmap.

Local Open Scope N_scope.

(** ** JavaScript strings

    A JavaScript string is a sequence of UTF-16 code units.  Regular
    expressions without the [u] flag work on code units, so this is the
    level at which [\d], [\s] and [.] are defined. *)

Abbreviation code_unit := N (only parsing).
Abbreviation jsstring := (list N) (only parsing).

(** ASCII literals of the source are written [js "..."]. *)
Definition js (s : string) : jsstring :=
  map N_of_ascii (list_ascii_of_string s).

(** [\d]: the ten ASCII digits. *)
Definition is_digit (c : code_unit) : bool := (48 <=? c) && (c <=? 57).

(** ECMAScript LineTerminator: LF, CR, LS, PS. *)
Definition is_line_terminator (c : code_unit) : bool :=
  (c =? 10) || (c =? 13) || (c =? 8232) || (c =? 8233).

(** ECMAScript WhiteSpace: TAB, VT, FF, SP, NBSP, ZWNBSP and the Unicode
    space separators. *)
Definition is_white_space (c : code_unit) : bool :=
  (c =? 9) || (c =? 11) || (c =? 12) || (c =? 32) || (c =? 160)
  || (c =? 5760) || ((8192 <=? c) && (c <=? 8202))
  || (c =? 8239) || (c =? 8287) || (c =? 12288) || (c =? 65279).

(** [\s] is WhiteSpace or LineTerminator; [String.prototype.trim] strips
    the same set. *)
Definition is_space (c : code_unit) : bool :=
  is_white_space c || is_line_terminator c.

(** [.] without the [s] flag: any code unit but a line terminator. *)
Definition is_dot (c : code_unit) : bool := negb (is_line_terminator c).

Definition is_char (k : code_unit) (c : code_unit) : bool := c =? k.

(** ** Regular expressions

    The three regular expressions of the source are written as terms of
    [regex]; matching is by Brzozowski derivatives and is proved to agree
    with the usual language semantics. *)

Inductive regex : Type :=
| Void
| Eps
| Class (p : code_unit -> bool)
| Cat (r1 r2 : regex)
| Alt (r1 r2 : regex)
| Star (r : regex).

Definition Plus (r : regex) : regex := Cat r (Star r).

Fixpoint Rep (n : nat) (r : regex) : regex :=
  match n with
  | O => Eps
  | S k => Cat r (Rep k r)
  end.

Fixpoint Lit (s : jsstring) : regex :=
  match s with
  | [] => Eps
  | c :: s' => Cat (Class (is_char c)) (Lit s')
  end.

Inductive lang : regex -> jsstring -> Prop :=
| lang_eps : lang Eps []
| lang_class p c : p c = true -> lang (Class p) [c]
| lang_cat r1 r2 s1 s2 : lang r1 s1 -> lang r2 s2 -> lang (Cat r1 r2) (s1 ++ s2)
| lang_alt_l r1 r2 s : lang r1 s -> lang (Alt r1 r2) s
| lang_alt_r r1 r2 s : lang r2 s -> lang (Alt r1 r2) s
| lang_star_nil r : lang (Star r) []
| lang_star_cons r s1 s2 :
    lang r s1 -> lang (Star r) s2 -> lang (Star r) (s1 ++ s2).

Fixpoint nullable (r : regex) : bool :=
  match r with
  | Void => false
  | Eps => true
  | Class _ => false
  | Cat r1 r2 => nullable r1 && nullable r2
  | Alt r1 r2 => nullable r1 || nullable r2
  | Star _ => true
  end.

Fixpoint deriv (c : code_unit) (r : regex) : regex :=
  match r with
  | Void => Void
  | Eps => Void
  | Class p => if p c then Eps else Void
  | Cat r1 r2 =>
      if nullable r1 then Alt (Cat (deriv c r1) r2) (deriv c r2)
      else Cat (deriv c r1) r2
  | Alt r1 r2 => Alt (deriv c r1) (deriv c r2)
  | Star r1 => Cat (deriv c r1) (Star r1)
  end.

(** [/^r$/.test(s)]: the whole string is in the language of [r]. *)
Fixpoint matches (r : regex) (s : jsstring) : bool :=
  match s with
  | [] => nullable r
  | c :: s' => matches (deriv c r) s'
  end.

(** [/^r/.test(s)]: some prefix of the string is in the language of [r]. *)
Fixpoint matches_prefix (r : regex) (s : jsstring) : bool :=
  nullable r ||
  match s with
  | [] => false
  | c :: s' => matches_prefix (deriv c r) s'
  end.

(** ** Numbers and their decimal form *)

Fixpoint drop_while {A} (p : A -> bool) (l : list A) : list A :=
  match l with
  | x :: l' => if p x then drop_while p l' else l
  | [] => []
  end.

Fixpoint uint_units (u : Decimal.uint) : jsstring :=
  match u with
  | Decimal.Nil => []
  | Decimal.D0 u' => 48 :: uint_units u'
  | Decimal.D1 u' => 49 :: uint_units u'
  | Decimal.D2 u' => 50 :: uint_units u'
  | Decimal.D3 u' => 51 :: uint_units u'
  | Decimal.D4 u' => 52 :: uint_units u'
  | Decimal.D5 u' => 53 :: uint_units u'
  | Decimal.D6 u' => 54 :: uint_units u'
  | Decimal.D7 u' => 55 :: uint_units u'
  | Decimal.D8 u' => 56 :: uint_units u'
  | Decimal.D9 u' => 57 :: uint_units u'
  end.

(** [parseInt(s, 10)]: leading white space and one sign are skipped, then
    the longest run of digits is read; [None] stands for [NaN].  The value
    is exact as long as it stays below 2^53, which covers the four-digit
    prefixes this program parses. *)
Fixpoint parse_digits (acc : Z) (s : jsstring) : Z :=
  match s with
  | c :: s' =>
      if is_digit c then parse_digits (10 * acc + (Z.of_N c - 48))%Z s'
      else acc
  | [] => acc
  end.

Definition parseInt10 (s : jsstring) : option Z :=
  let t := drop_while is_space s in
  let '(sign, u) :=
    match t with
    | 45 :: u => ((-1)%Z, u)
    | 43 :: u => (1%Z, u)
    | _ => (1%Z, t)
    end in
  match u with
  | c :: _ => if is_digit c then Some (sign * parse_digits 0 u)%Z else None
  | [] => None
  end.

(** [Number.prototype.toString()] on an integer (or on [NaN]). *)
Definition Number_toString (x : option Z) : jsstring :=
  match x with
  | None => js "NaN"
  | Some z =>
      if (z <? 0)%Z then 45 :: uint_units (N.to_uint (Z.to_N (- z)))
      else uint_units (N.to_uint (Z.to_N z))
  end.

(** ** GitHubService: file names *)

(** [/^\d{4}\s+.+\..+$/], the file-name pattern of the scanner. *)
Definition problem_file_pattern : regex :=
  Cat (Rep 4 (Class is_digit))
    (Cat (Plus (Class is_space))
       (Cat (Plus (Class is_dot))
          (Cat (Class (is_char 46)) (Plus (Class is_dot))))).

(** [/^(\d{4})\s+/], the pattern of [convertGithubToLeetCodeSlug]. *)
Definition slug_prefix_pattern : regex :=
  Cat (Rep 4 (Class is_digit)) (Plus (Class is_space)).

(** [convertGithubToLeetCodeSlug(githubFileName)].  Group 1 of the match
    is what [\d{4}] consumed at the anchor: the first four code units. *)
Definition convertGithubToLeetCodeSlug (githubFileName : jsstring) : jsstring :=
  if matches_prefix slug_prefix_pattern githubFileName
  then Number_toString (parseInt10 (take 4 githubFileName))
  else [].

Definition digit_units : jsstring := [48; 49; 50; 51; 52; 53; 54; 55; 56; 57].

(** The specification's wording for the derived identifier: the numeric
    prefix with its leading zeros removed (one digit is kept for zero). *)
Definition strip_leading_zeros (ds : jsstring) : jsstring :=
  match drop_while (fun c => c =? 48) ds with
  | [] => [48]
  | r => r
  end.


(** ** Completions

    A JavaScript call either returns or throws. *)

Inductive JsError : Type :=
| Error (message : jsstring)
| TypeError (message : jsstring).

Definition error_message (e : JsError) : jsstring :=
  match e with
  | Error m => m
  | TypeError m => m
  end.

Inductive completion (A : Type) : Type :=
| Normal (a : A)
| Throw (e : JsError).

Arguments Normal {A} a.
Arguments Throw {A} e.

Fixpoint str_eqb (s t : jsstring) : bool :=
  match s, t with
  | [], [] => true
  | c :: s', d :: t' => (c =? d) && str_eqb s' t'
  | _, _ => false
  end.

Fixpoint take_while {A} (p : A -> bool) (l : list A) : list A :=
  match l with
  | x :: l' => if p x then x :: take_while p l' else []
  | [] => []
  end.

(** A string is falsy exactly when it is empty. *)
Definition truthy_string (s : jsstring) : bool :=
  match s with
  | [] => false
  | _ :: _ => true
  end.

(** * The submission poller ([Problem] model, unnamed/part_002) *)

Module Poller.

(** The object [fetchSubmissionData] hands to the polling loop.  The loop
    reads [state], [status_msg] and [finished]; everything else travels
    along as [payload]. *)
Record SubmissionData (Payload : Type) : Type := mkSubmissionData {
  state : jsstring;
  status_msg : jsstring;
  finished : bool;
  payload : Payload;
}.

Arguments mkSubmissionData {Payload} _ _ _ _.
Arguments state {Payload} _.
Arguments status_msg {Payload} _.
Arguments finished {Payload} _.
Arguments payload {Payload} _.

(** What one GraphQL round trip of [fetchSubmissionData] can run into. *)
Inductive GraphQLOutcome (Payload : Type) : Type :=
| FetchRejected
| ResponseNotOk
| BodyNotJson
| GraphQLErrors
| NoSubmissionDetails
| MalformedDetails
| Details (statusCode : Z) (details : Payload).

Arguments FetchRejected {Payload}.
Arguments ResponseNotOk {Payload}.
Arguments BodyNotJson {Payload}.
Arguments GraphQLErrors {Payload}.
Arguments NoSubmissionDetails {Payload}.
Arguments MalformedDetails {Payload}.
Arguments Details {Payload} _ _.

(** What the timers and the page did, in order. *)
Inductive event : Type :=
| ReadLocation
| Sleep (ms : Z)
| FetchSubmission (submissionId : jsstring).

(** The capture context: the page URL as it reads at the n-th attempt,
    the answer of the GraphQL endpoint to the n-th request, and
    [extractSubmissionStatsFromAPI], whose number formatting and
    [LanguageUtils] lookup are kept abstract (it returns the updated
    record and whether it threw). *)
Record Capture (Payload Problem : Type) : Type := mkCapture {
  href : nat -> jsstring;
  graphql : jsstring -> nat -> GraphQLOutcome Payload;
  extractSubmissionStatsFromAPI :
    SubmissionData Payload -> Problem -> Problem * completion unit;
}.

Arguments mkCapture {Payload Problem} _ _ _.
Arguments href {Payload Problem} _ _.
Arguments graphql {Payload Problem} _ _ _.
Arguments extractSubmissionStatsFromAPI {Payload Problem} _ _ _.

(** [/\/submissions\/(\d+)/] *)
Definition submission_url_pattern : regex :=
  Cat (Lit (js "/submissions/")) (Plus (Class is_digit)).

(** Leftmost position at which [r] matches: the rest of the string from
    there on. *)
Fixpoint search (r : regex) (s : jsstring) : option jsstring :=
  if matches_prefix r s then Some s
  else match s with
       | [] => None
       | _ :: s' => search r s'
       end.

(** [getSubmissionIdFromURL()], as a function of [window.location.href].
    Group 1 is the greedy run of digits after the 13 code units of
    [/submissions/]. *)
Definition getSubmissionIdFromURL (url : jsstring) : option jsstring :=
  match search submission_url_pattern url with
  | Some t => Some (take_while is_digit (drop 13 t))
  | None => None
  end.

(** Truthiness of a [string|null] value. *)
Definition truthy_id (o : option jsstring) : bool :=
  match o with
  | Some s => truthy_string s
  | None => false
  end.

Definition url_maxAttempts : nat := 20.
Definition url_pollInterval : Z := 500.

(** The [for] loop of [waitForSubmissionURL].  [fuel] bounds the number
    of times the loop condition is evaluated; [None] means the fuel ran
    out before the loop was left. *)
Fixpoint waitForSubmissionURL_loop (location : nat -> jsstring)
    (fuel attempt : nat) (log : list event)
  : option (option jsstring * list event) :=
  match fuel with
  | O => None
  | S fuel' =>
      if (attempt <=? url_maxAttempts)%nat then
        let submissionId := getSubmissionIdFromURL (location attempt) in
        let log := log ++ [ReadLocation] in
        if truthy_id submissionId then Some (submissionId, log)
        else
          let log :=
            if (attempt <? url_maxAttempts)%nat
            then log ++ [Sleep url_pollInterval] else log in
          waitForSubmissionURL_loop location fuel' (S attempt) log
      else Some (None, log)
  end.

Definition waitForSubmissionURL (location : nat -> jsstring) (fuel : nat)
  : option (option jsstring * list event) :=
  waitForSubmissionURL_loop location fuel 1 [].

Definition poll_maxAttempts : nat := 10.
Definition poll_pollInterval : Z := 1000.

(** The [for] loop of [pollForSubmissionData]; [fetch attempt] is what
    [await this.fetchSubmissionData(submissionId)] yields at that
    attempt. *)
Fixpoint pollForSubmissionData_loop {Payload : Type}
    (fetch : nat -> option (SubmissionData Payload))
    (submissionId : jsstring) (fuel attempt : nat) (log : list event)
  : option (option (SubmissionData Payload) * list event) :=
  match fuel with
  | O => None
  | S fuel' =>
      if (attempt <=? poll_maxAttempts)%nat then
        let log := log ++ [FetchSubmission submissionId] in
        match fetch attempt with
        | None => Some (None, log)
        | Some data =>
            if str_eqb (state data) (js "PENDING") then
              if (attempt <? poll_maxAttempts)%nat then
                pollForSubmissionData_loop fetch submissionId fuel'
                  (S attempt) (log ++ [Sleep poll_pollInterval])
              else Some (None, log)
            else if str_eqb (status_msg data) (js "Accepted") && finished data
            then Some (Some data, log)
            else if finished data then Some (Some data, log)
            else
              let log :=
                if (attempt <? poll_maxAttempts)%nat
                then log ++ [Sleep poll_pollInterval] else log in
              pollForSubmissionData_loop fetch submissionId fuel'
                (S attempt) log
        end
      else Some (None, log)
  end.

Definition pollForSubmissionData {Payload : Type}
    (fetch : nat -> option (SubmissionData Payload))
    (submissionId : jsstring) (fuel : nat)
  : option (option (SubmissionData Payload) * list event) :=
  pollForSubmissionData_loop fetch submissionId fuel 1 [].

(** [fetchSubmissionData(submissionId)]: every failure, thrown or not,
    becomes [null]; a response with details is always reported as
    finished, in state [SUCCESS]. *)
Definition fetchSubmissionData {Payload : Type}
    (outcome : GraphQLOutcome Payload) : option (SubmissionData Payload) :=
  match outcome with
  | Details statusCode details =>
      Some {| state := js "SUCCESS";
              status_msg := if (statusCode =? 10)%Z then js "Accepted"
                            else js "Not Accepted";
              finished := true;
              payload := details |}
  | _ => None
  end.

(** How many log entries are polls of the structured source, and the
    total time spent sleeping. *)
Definition is_fetch (e : event) : bool :=
  match e with FetchSubmission _ => true | _ => false end.

Definition is_read (e : event) : bool :=
  match e with ReadLocation => true | _ => false end.

Definition poll_cycles (log : list event) : nat := length (List.filter is_fetch log).

Definition location_reads (log : list event) : nat := length (List.filter is_read log).

Fixpoint slept (log : list event) : Z :=
  match log with
  | [] => 0
  | Sleep ms :: log' => (ms + slept log')%Z
  | _ :: log' => slept log'
  end.

(** [extractSubmissionStatsFromURL()].  The result is the record after
    the call, how the call completed, and the event log; [None] only if
    one of the loops ran out of fuel.  The [catch] block logs and
    rethrows, so a throw inside [try] is the throw of the call. *)
Definition extractSubmissionStatsFromURL {Payload Problem : Type}
    (ctx : Capture Payload Problem) (fuel : nat) (this : Problem)
  : option (Problem * completion unit * list event) :=
  match waitForSubmissionURL (href ctx) fuel with
  | None => None
  | Some (submissionId, log1) =>
      match submissionId with
      | Some id =>
          if truthy_string id then
            let log2 := log1 ++ [Sleep 2000] in
            match
              pollForSubmissionData_loop
                (fun attempt => fetchSubmissionData (graphql ctx id attempt))
                id fuel 1 log2
            with
            | None => None
            | Some (Some submissionData, log3) =>
                let '(this', c) :=
                  extractSubmissionStatsFromAPI ctx submissionData this in
                Some (this', c, log3)
            | Some (None, log3) =>
                Some (this,
                      Throw (Error (js "Failed to fetch submission data")),
                      log3)
            end
          else Some (this, Throw (Error (js "No submission ID in URL")), log1)
      | None => Some (this, Throw (Error (js "No submission ID in URL")), log1)
      end
  end.

(** A response after which the polling loop goes on to the next
    attempt: still pending, or neither pending nor finished. *)
Definition keeps_polling {Payload : Type} (data : SubmissionData Payload)
  : bool :=
  str_eqb (state data) (js "PENDING") || negb (finished data).

(** The log of [m] attempts that each polled and then slept. *)
Fixpoint waiting_log (submissionId : jsstring) (m : nat) : list event :=
  match m with
  | O => []
  | S m' =>
      FetchSubmission submissionId :: Sleep poll_pollInterval
      :: waiting_log submissionId m'
  end.

End Poller.

(** * The earlier [Problem] model (scripts/models/problem.js)

    The copy of the class under [scripts/models] polls with the same
    loop but reads the URL once and keeps DOM extraction as a second
    strategy. *)

Module LegacyPoller.
Import Poller.

(** The page as that copy sees it: the URL at the time of the call, the
    answer of the check endpoint as [fetchSubmissionData] reports it at
    the n-th attempt, and the two extraction strategies.  Both catch
    their own exceptions, so each is a function on the record. *)
Record Capture (Payload Problem : Type) : Type := mkCapture {
  href : jsstring;
  fetchSubmissionData : jsstring -> nat -> option (SubmissionData Payload);
  extractSubmissionStatsFromAPI : SubmissionData Payload -> Problem -> Problem;
  extractSubmissionStatsFromDOM : Problem -> Problem;
}.

Arguments mkCapture {Payload Problem} _ _ _ _.
Arguments href {Payload Problem} _.
Arguments fetchSubmissionData {Payload Problem} _ _ _.
Arguments extractSubmissionStatsFromAPI {Payload Problem} _ _ _.
Arguments extractSubmissionStatsFromDOM {Payload Problem} _ _.

(** [/\/submissions\/(\d+)\//]: here the digits must be followed by a
    slash, so the greedy run of digits is the group again. *)
Definition submission_url_pattern : regex :=
  Cat (Lit (js "/submissions/"))
    (Cat (Plus (Class is_digit)) (Class (is_char 47))).

Definition getSubmissionIdFromURL (url : jsstring) : option jsstring :=
  match search submission_url_pattern url with
  | Some t => Some (take_while is_digit (drop 13 t))
  | None => None
  end.

(** [extractSubmissionStatsFromURL()] of that copy: every failure ends
    in DOM extraction, nothing is thrown. *)
Definition extractSubmissionStatsFromURL {Payload Problem : Type}
    (ctx : Capture Payload Problem) (fuel : nat) (this : Problem)
  : option (Problem * list event) :=
  let submissionId := getSubmissionIdFromURL (href ctx) in
  match submissionId with
  | Some id =>
      if truthy_string id then
        match
          pollForSubmissionData_loop (fetchSubmissionData ctx id) id fuel 1
            [Sleep 2000]
        with
        | None => None
        | Some (Some submissionData, log) =>
            Some (extractSubmissionStatsFromAPI ctx submissionData this, log)
        | Some (None, log) =>
            Some (extractSubmissionStatsFromDOM ctx this, log)
        end
      else Some (extractSubmissionStatsFromDOM ctx this, [])
  | None => Some (extractSubmissionStatsFromDOM ctx this, [])
  end.

End LegacyPoller.

(** * The background script ([background.js]) *)

Module Background.

(** ** Values, storage and the outside world *)

(** The values kept in [chrome.storage.local] under the keys this
    script reads; [VNumber] is an integer-valued number. *)
Inductive JsValue : Type :=
| VUndefined
| VNull
| VBool (b : bool)
| VNumber (z : Z)
| VString (s : jsstring).

Definition truthy (v : JsValue) : bool :=
  match v with
  | VUndefined => false
  | VNull => false
  | VBool b => b
  | VNumber z => negb (z =? 0)%Z
  | VString s => truthy_string s
  end.

(** String conversion inside a template literal. *)
Definition ToString (v : JsValue) : jsstring :=
  match v with
  | VUndefined => js "undefined"
  | VNull => js "null"
  | VBool true => js "true"
  | VBool false => js "false"
  | VNumber z => Number_toString (Some z)
  | VString s => s
  end.

(** One entry of a GitHub contents listing. *)
Record Entry : Type := mkEntry {
  type : jsstring;
  name : jsstring;
}.

Inductive JsonBody : Type :=
| JsonRejected (e : JsError)
| JsonNotArray
| JsonArray (items : list Entry).

Inductive FetchResult : Type :=
| NetworkError (e : JsError)
| Response (ok : bool) (status : Z) (body : JsonBody).

(** One element of the scanner's result. *)
Record ProblemFile : Type := mkProblemFile {
  originalName : jsstring;
  questionId : jsstring;
  language : jsstring;
}.

(** One element of the difficulty catalog; [None] is a missing or
    [null] difficulty. *)
Record Question : Type := mkQuestion {
  q_questionId : jsstring;
  q_difficulty : option jsstring;
}.

Record SyncResult : Type := mkSyncResult {
  success : bool;
  message : jsstring;
}.

(** ** LeetCodeStateManager *)

Record Counter : Type := mkCounter {
  easy : Z;
  medium : Z;
  hard : Z;
}.

Record State : Type := mkState {
  counter : Counter;
  isCountingComplete : bool;
  lastUpdate : option Z;
  loading : bool;
}.

(** The [statsUpdate] message: [getStats()] copies the state by value. *)
Record Stats : Type := mkStats {
  stats_easy : Z;
  stats_medium : Z;
  stats_hard : Z;
  stats_isCountingComplete : bool;
  stats_lastUpdate : option Z;
  stats_loading : bool;
}.

(** The services that are not part of this file and the platform:
    [fetch] (its answer to the n-th request of a run), the sync service
    (it sees storage only, it holds no reference to the state manager),
    the difficulty catalog and the ISO form of a date. *)
Record Env : Type := mkEnv {
  fetch : nat -> jsstring -> FetchResult;
  syncService_startSync :
    gmap jsstring JsValue -> completion SyncResult * gmap jsstring JsValue;
  fetchAllQuestionsDifficulty : completion (list Question);
  toISOString : Z -> jsstring;
}.

Record World : Type := mkWorld {
  manager : State;
  storage : gmap jsstring JsValue;
  sent : list Stats;
  now : Z;
  requests : nat;
}.

(** ** A state-and-exception monad for the script's methods *)

Definition M (A : Type) : Type := World -> completion A * World.

Definition ret {A} (a : A) : M A := fun w => (Normal a, w).

Definition throw {A} (e : JsError) : M A := fun w => (Throw e, w).

Definition bind {A B} (m : M A) (k : A -> M B) : M B :=
  fun w =>
    match m w with
    | (Normal a, w') => k a w'
    | (Throw e, w') => (Throw e, w')
    end.

(** [try { m } catch (error) { handler error }] *)
Definition try_catch {A} (m : M A) (handler : JsError -> M A) : M A :=
  fun w =>
    match m w with
    | (Normal a, w') => (Normal a, w')
    | (Throw e, w') => handler e w'
    end.

Declare Scope js_scope.
Delimit Scope js_scope with js.
Notation "x <- m ;; k" := (bind m (fun x => k))
  (at level 100, m at next level, right associativity) : js_scope.
Notation "m ;; k" := (bind m (fun _ => k))
  (at level 100, right associativity) : js_scope.
Local Open Scope js_scope.

Definition get_manager : M State := fun w => (Normal (manager w), w).

Definition set_manager (s : State) : M unit :=
  fun w => (Normal tt,
            {| manager := s; storage := storage w; sent := sent w;
               now := now w; requests := requests w |}).

Definition new_Date : M Z := fun w => (Normal (now w), w).

(** [chrome.storage.local.get]: a key that was never set reads
    [undefined]. *)
Definition storage_get (key : jsstring) : M JsValue :=
  fun w => (Normal (default VUndefined (storage w !! key)), w).

(** [chrome.storage.local.set] with an object literal. *)
Definition storage_set (items : list (jsstring * JsValue)) : M unit :=
  fun w => (Normal tt,
            {| manager := manager w;
               storage := fold_left (fun m kv => <[kv.1 := kv.2]> m)
                            items (storage w);
               sent := sent w; now := now w; requests := requests w |}).

(** [await fetch(url)] *)
Definition js_fetch (env : Env) (url : jsstring) : M (bool * Z * JsonBody) :=
  fun w =>
    let w' := {| manager := manager w; storage := storage w; sent := sent w;
                 now := now w; requests := S (requests w) |} in
    match fetch env (requests w) url with
    | NetworkError e => (Throw e, w')
    | Response ok status body => (Normal (ok, status, body), w')
    end.

(** [await response.json()] followed by the first array method used on
    the result. *)
Definition json_array (body : JsonBody) : M (list Entry) :=
  match body with
  | JsonRejected e => throw e
  | JsonNotArray => throw (TypeError (js "data.filter is not a function"))
  | JsonArray items => ret items
  end.

(** ** LeetCodeStateManager methods *)

(** [x += 1] on a counter.  Numbers are doubles: an integer below 2^53
    is incremented exactly, at 2^53 the sum rounds back to 2^53. *)
Definition js_increment (x : Z) : Z :=
  if (x <? 2 ^ 53)%Z then (x + 1)%Z else x.

(** [String.prototype.toLowerCase], on its ASCII range.  The mappings
    outside ASCII are left out.  Two of them produce ASCII letters, the
    Kelvin sign ([k]) and dotted capital I ([i] followed by U+0307); the
    property names tested below contain neither [k] nor U+0307, so a
    string lower-cases to one of those names exactly when its ASCII
    lower-casing is that name. *)
Definition lower_unit (c : code_unit) : code_unit :=
  if (65 <=? c) && (c <=? 90) then c + 32 else c.

Definition toLowerCase (s : jsstring) : jsstring := map lower_unit s.

(** [normalizedDifficulty in this.state.counter]: the three own keys, and
    the lower-case names inherited from [Object.prototype]. *)
Definition in_counter (k : jsstring) : bool :=
  str_eqb k (js "easy") || str_eqb k (js "medium") || str_eqb k (js "hard")
  || str_eqb k (js "constructor") || str_eqb k (js "__proto__").

(** [this.state.counter[k] += 1] for a [k] with [in_counter k].  For an
    inherited name the three tier fields keep their values. *)
Definition counter_add (k : jsstring) (c : Counter) : Counter :=
  if str_eqb k (js "easy") then
    {| easy := js_increment (easy c); medium := medium c; hard := hard c |}
  else if str_eqb k (js "medium") then
    {| easy := easy c; medium := js_increment (medium c); hard := hard c |}
  else if str_eqb k (js "hard") then
    {| easy := easy c; medium := medium c; hard := js_increment (hard c) |}
  else c.

Definition truthy_difficulty (d : option jsstring) : bool :=
  match d with
  | Some s => truthy_string s
  | None => false
  end.

Definition getStats (s : State) : Stats :=
  {| stats_easy := easy (counter s);
     stats_medium := medium (counter s);
     stats_hard := hard (counter s);
     stats_isCountingComplete := isCountingComplete s;
     stats_lastUpdate := lastUpdate s;
     stats_loading := loading s |}.

(** [broadcastState()]: the message is handed to the runtime; a failed
    delivery is swallowed by the [.catch]. *)
Definition broadcastState : M unit :=
  fun w => (Normal tt,
            {| manager := manager w; storage := storage w;
               sent := sent w ++ [getStats (manager w)];
               now := now w; requests := requests w |}).

(** [incrementCounter(difficulty)]; the result is [undefined] ([None]),
    [true] or [false]. *)
Definition incrementCounter (difficulty : option jsstring) : M (option bool) :=
  match difficulty with
  | Some d =>
      if truthy_string d then
        let normalizedDifficulty := toLowerCase d in
        if in_counter normalizedDifficulty then
          s <- get_manager ;;
          t <- new_Date ;;
          set_manager
            {| counter := counter_add normalizedDifficulty (counter s);
               isCountingComplete := isCountingComplete s;
               lastUpdate := Some t;
               loading := loading s |} ;;
          broadcastState ;;
          ret (Some true)
        else ret (Some false)
      else ret None
  | None => ret None
  end.

(** The callback of [difficulties.forEach]. *)
Definition count_one (c : Counter) (difficulty : option jsstring) : Counter :=
  match difficulty with
  | Some d =>
      if truthy_string d then
        let normalizedDifficulty := toLowerCase d in
        if in_counter normalizedDifficulty
        then counter_add normalizedDifficulty c
        else c
      else c
  | None => c
  end.

Definition zero_counter : Counter := {| easy := 0; medium := 0; hard := 0 |}.

Definition count_all (difficulties : list (option jsstring)) : Counter :=
  fold_left count_one difficulties zero_counter.

(** [updateStats(difficulties)] *)
Definition updateStats (difficulties : list (option jsstring)) : M unit :=
  t <- new_Date ;;
  set_manager
    {| counter := count_all difficulties;
       isCountingComplete := true;
       lastUpdate := Some t;
       loading := false |} ;;
  broadcastState.

(** [reset()] *)
Definition reset : M unit :=
  set_manager
    {| counter := zero_counter;
       isCountingComplete := false;
       lastUpdate := None;
       loading := true |}.

(** The state a new [LeetCodeStateManager] starts in. *)
Definition initial_state : State :=
  {| counter := zero_counter;
     isCountingComplete := false;
     lastUpdate := None;
     loading := true |}.

(** ** GitHubService *)

Fixpoint split (sep : code_unit) (s : jsstring) : list jsstring :=
  match s with
  | [] => [[]]
  | c :: s' =>
      if c =? sep then [] :: split sep s'
      else match split sep s' with
           | seg :: segs => (c :: seg) :: segs
           | [] => [[c]]
           end
  end.

Definition trim (s : jsstring) : jsstring :=
  rev (drop_while is_space (rev (drop_while is_space s))).

Definition includes (c : code_unit) (s : jsstring) : bool :=
  existsb (fun d => d =? c) s.

(** [ENV.REPOSITORY_URL] *)
Definition REPOSITORY_URL : jsstring := js "https://api.github.com/repos/".

(** [parseRepositoryString(repoString, fallbackUsername)]; [None] is the
    [null] result.  A truthy value that is not a string has no
    [includes] method. *)
Definition parseRepositoryString (repoString fallbackUsername : JsValue)
  : completion (option (JsValue * jsstring)) :=
  if negb (truthy repoString) then Normal None
  else
    match repoString with
    | VString s =>
        if includes 47 s then
          let parts := split 47 s in
          Normal (Some (VString (trim (nth 0 parts [])),
                        trim (nth 1 parts [])))
        else Normal (Some (fallbackUsername, trim s))
    | _ => Throw (TypeError (js "repoString.includes is not a function"))
    end.

(** [buildBasicGithubUrl()] *)
Definition buildBasicGithubUrl : M jsstring :=
  username <- storage_get (js "leetcode_tracker_username") ;;
  repo <- storage_get (js "leetcode_tracker_repo") ;;
  match parseRepositoryString repo username with
  | Throw e => throw e
  | Normal None => throw (Error (js "Invalid repository configuration"))
  | Normal (Some (user, repositoryName)) =>
      ret (REPOSITORY_URL ++ ToString user ++ js "/" ++ repositoryName
           ++ js "/contents/")
  end.

(** The [filter] predicate on the entries of a language folder. *)
Definition is_problem_file (file : Entry) : bool :=
  str_eqb (type file) (js "file") && matches problem_file_pattern (name file).

Definition to_problem (folder : Entry) (file : Entry) : ProblemFile :=
  {| originalName := name file;
     questionId := convertGithubToLeetCodeSlug (name file);
     language := name folder |}.

(** The body of the [for (const folder of languageFolders)] loop with its
    own [try]/[catch]: the problems to push for this folder. *)
Definition scan_folder (env : Env) (url : jsstring) (folder : Entry)
  : M (list ProblemFile) :=
  try_catch
    (let folderUrl := url ++ name folder in
     folderResponse <- js_fetch env folderUrl ;;
     let '(ok, _, body) := folderResponse in
     if ok then
       folderData <- json_array body ;;
       ret (map (to_problem folder) (List.filter is_problem_file folderData))
     else ret [])
    (fun error => ret []).

Fixpoint scan_folders (env : Env) (url : jsstring) (folders : list Entry)
    (allProblems : list ProblemFile) : M (list ProblemFile) :=
  match folders with
  | [] => ret allProblems
  | folder :: rest =>
      problems <- scan_folder env url folder ;;
      scan_folders env url rest (allProblems ++ problems)
  end.

Definition is_dir (item : Entry) : bool := str_eqb (type item) (js "dir").

(** [getAllLeetCodeProblems()] *)
Definition getAllLeetCodeProblems (env : Env) : M (list ProblemFile) :=
  try_catch
    (url <- buildBasicGithubUrl ;;
     response <- js_fetch env url ;;
     let '(ok, _, body) := response in
     if negb ok then ret []
     else
       data <- json_array body ;;
       let languageFolders := List.filter is_dir data in
       scan_folders env url languageFolders [])
    (fun error => ret []).

(** ** LeetCodeTrackerController *)

(** The own properties of a controller and the methods of its class. *)
Definition LeetCodeTrackerController_members : list string :=
  ["stateManager"; "githubService"; "leetCodeService"; "syncService";
   "constructor"; "initializeMessageListeners"; "saveUserInfos";
   "startSync"; "initCounter"]%string.

(** The methods of [GitHubService]. *)
Definition GitHubService_members : list string :=
  ["env"; "constructor"; "parseRepositoryString"; "buildBasicGithubUrl";
   "getAllLeetCodeProblems"; "convertGithubToLeetCodeSlug"]%string.

(** What every object inherits from [Object.prototype]. *)
Definition Object_prototype_members : list string :=
  ["constructor"; "hasOwnProperty"; "isPrototypeOf"; "propertyIsEnumerable";
   "toLocaleString"; "toString"; "valueOf"; "__proto__";
   "__defineGetter__"; "__defineSetter__"; "__lookupGetter__";
   "__lookupSetter__"]%string.

(** [this.member(...)] with [this] a controller: the name is looked up
    among the own properties, the methods of the class (which extends
    nothing) and [Object.prototype].  A name found nowhere reads
    [undefined], and calling [undefined] throws a [TypeError]; [body] is
    the method the name denotes where it is found. *)
Definition call_on_controller {A} (member : string) (body : M A) : M A :=
  if existsb (String.eqb member)
       (LeetCodeTrackerController_members ++ Object_prototype_members)
  then body
  else throw (TypeError (js "this." ++ js member ++ js " is not a function")).

(** [new Map(allQuestions.map(q => [q.questionId, q.difficulty]))]: a
    later entry replaces an earlier one with the same key. *)
Definition difficultyMap (allQuestions : list Question)
  : gmap jsstring (option jsstring) :=
  fold_left (fun m q => <[q_questionId q := q_difficulty q]> m)
    allQuestions ∅.

(** [problems.map(problem => difficultyMap.get(problem.questionId))] *)
Definition difficulties_of (problems : list ProblemFile)
    (allQuestions : list Question) : list (option jsstring) :=
  map (fun problem =>
         match difficultyMap allQuestions !! questionId problem with
         | Some d => d
         | None => None
         end)
    problems.

(** The [catch] block of [initCounter], also its early exit. *)
Definition show_completed : M unit :=
  s <- get_manager ;;
  set_manager
    {| counter := counter s;
       isCountingComplete := true;
       lastUpdate := lastUpdate s;
       loading := false |} ;;
  broadcastState.

(** [initCounter()], with the first element of the [Promise.all] array
    left open: [scan] is what [this.getAllLeetCodeProblems()] does. *)
Definition initCounter_with (env : Env) (scan : M (list ProblemFile)) : M unit :=
  try_catch
    (leetcode_tracker_token <- storage_get (js "leetcode_tracker_token") ;;
     leetcode_tracker_username <- storage_get (js "leetcode_tracker_username") ;;
     leetcode_tracker_repo <- storage_get (js "leetcode_tracker_repo") ;;
     if negb (truthy leetcode_tracker_token)
        || negb (truthy leetcode_tracker_username)
        || negb (truthy leetcode_tracker_repo)
     then show_completed
     else
       reset ;;
       problems <- scan ;;
       allQuestions <-
         match fetchAllQuestionsDifficulty env with
         | Normal qs => ret qs
         | Throw e => throw e
         end ;;
       updateStats (difficulties_of problems allQuestions))
    (fun error => show_completed).

(** [initCounter()] as written: the scanner is called on [this], the
    controller. *)
Definition initCounter (env : Env) : M unit :=
  initCounter_with env
    (call_on_controller "getAllLeetCodeProblems" (getAllLeetCodeProblems env)).

(** The same method with the scanner called on [this.githubService],
    where it is defined. *)
Definition initCounter_on_githubService (env : Env) : M unit :=
  initCounter_with env (getAllLeetCodeProblems env).

(** [await this.syncService.startSync()] *)
Definition run_sync (env : Env) : M SyncResult :=
  fun w =>
    let '(c, st) := syncService_startSync env (storage w) in
    (c, {| manager := manager w; storage := st; sent := sent w;
           now := now w; requests := requests w |}).

Definition sync_status_record (env : Env) (status message : jsstring) (t : Z)
  : list (jsstring * JsValue) :=
  [(js "leetcode_tracker_last_sync_status", VString status);
   (js "leetcode_tracker_sync_in_progress", VBool false);
   (js "leetcode_tracker_last_sync_message", VString message);
   (js "leetcode_tracker_last_sync_date", VString (toISOString env t))].

(** [startSync()].  [this.initCounter()] is started without [await]; it
    is run here before the method returns. *)
Definition startSync (env : Env) : M SyncResult :=
  try_catch
    (result <- run_sync env ;;
     t <- new_Date ;;
     storage_set
       (sync_status_record env
          (if success result then js "success" else js "failed")
          (message result) t) ;;
     (if success result then initCounter env else ret tt) ;;
     ret result)
    (fun error =>
       t <- new_Date ;;
       storage_set
         (sync_status_record env (js "failed") (error_message error) t) ;;
       ret {| success := false;
              message := js "Error during synchronization: "
                         ++ error_message error |}).

(** The reconciliation of lines 469-479 as a function of the scanned
    files and the catalog. *)
Definition reconcile (problems : list ProblemFile)
    (allQuestions : list Question) : Counter :=
  count_all (difficulties_of problems allQuestions).

(** A file has a catalog match when the catalog has an entry for its
    identifier. *)
Definition has_catalog_match (allQuestions : list Question)
    (problem : ProblemFile) : bool :=
  match difficultyMap allQuestions !! questionId problem with
  | Some _ => true
  | None => false
  end.

(** ** What the scanner returns, in closed form *)

(** The problems one language folder contributes when its listing is
    the [k]-th request. *)
Definition folder_files (env : Env) (k : nat) (url : jsstring)
    (folder : Entry) : list ProblemFile :=
  match fetch env k (url ++ name folder) with
  | Response true _ (JsonArray items) =>
      map (to_problem folder) (List.filter is_problem_file items)
  | _ => []
  end.

Fixpoint scanned (env : Env) (k : nat) (url : jsstring)
    (folders : list Entry) : list ProblemFile :=
  match folders with
  | [] => []
  | folder :: rest => folder_files env k url folder ++ scanned env (S k) url rest
  end.

Definition scan_result (env : Env) (w : World) : list ProblemFile :=
  match buildBasicGithubUrl w with
  | (Normal url, _) =>
      match fetch env (requests w) url with
      | Response true _ (JsonArray data) =>
          scanned env (S (requests w)) url (List.filter is_dir data)
      | _ => []
      end
  | (Throw _, _) => []
  end.

Definition after_requests (n : nat) (w : World) : World :=
  {| manager := manager w; storage := storage w; sent := sent w;
     now := now w; requests := (requests w + n)%nat |}.

(** ** Tier counts *)

Definition nonneg (c : Counter) : Prop :=
  (0 <= easy c)%Z /\ (0 <= medium c)%Z /\ (0 <= hard c)%Z.

Definition total (c : Counter) : Z := (easy c + medium c + hard c)%Z.

(** The difficulty the catalog gives a file, if any. *)
Definition tier_of (allQuestions : list Question) (problem : ProblemFile)
  : option jsstring :=
  match difficultyMap allQuestions !! questionId problem with
  | Some d => d
  | None => None
  end.

(** A difficulty value that is counted under the key [k]. *)
Definition counts_as (k : jsstring) (difficulty : option jsstring) : bool :=
  match difficulty with
  | Some d => str_eqb (toLowerCase d) k
  | None => false
  end.

(** Whether storage holds a token, a user name and a repository. *)
Definition configured (w : World) : bool :=
  truthy (default VUndefined (storage w !! js "leetcode_tracker_token"))
  && truthy (default VUndefined (storage w !! js "leetcode_tracker_username"))
  && truthy (default VUndefined (storage w !! js "leetcode_tracker_repo")).

(** What observers see once [initCounter] is over: not loading,
    counting complete, and the last message sent is that state. *)
Definition completed (w : World) : Prop :=
  loading (manager w) = false
  /\ isCountingComplete (manager w) = true
  /\ exists before, sent w = before ++ [getStats (manager w)].

(** The four keys of the persisted sync status. *)
Definition status_key : jsstring := js "leetcode_tracker_last_sync_status".
Definition in_progress_key : jsstring := js "leetcode_tracker_sync_in_progress".
Definition message_key : jsstring := js "leetcode_tracker_last_sync_message".
Definition date_key : jsstring := js "leetcode_tracker_last_sync_date".

(** How a sync run ended: [Some message] when it failed. *)
Definition sync_failure (c : completion SyncResult) : option jsstring :=
  match c with
  | Normal result => if success result then None else Some (message result)
  | Throw error => Some (error_message error)
  end.

End Background.

(** * Concrete inputs used by the examples *)

Module Examples.
Import Poller Background.

Definition two_sum_py : jsstring := js "0001 two-sum.py".
Definition two_sum_js : jsstring := js "0001 two-sum.js".

(** ** A capture whose GraphQL endpoint cannot be reached *)

Definition submission_url : jsstring :=
  js "https://leetcode.com/problems/two-sum/submissions/1774457019/".

Definition unreachable_capture : Capture unit jsstring :=
  {| href := fun _ => submission_url;
     graphql := fun _ _ => FetchRejected;
     extractSubmissionStatsFromAPI := fun _ this => (this, Normal tt) |}.

(** The same page for the copy under [scripts/models]: the check
    endpoint stays pending, DOM extraction finds a runtime. *)
Definition legacy_capture : LegacyPoller.Capture unit jsstring :=
  {| LegacyPoller.href := submission_url;
     LegacyPoller.fetchSubmissionData :=
       fun _ _ => Some {| state := js "PENDING"; status_msg := js "";
                          finished := false; payload := tt |};
     LegacyPoller.extractSubmissionStatsFromAPI := fun _ this => this;
     LegacyPoller.extractSubmissionStatsFromDOM := fun _ => js "0 ms" |}.

(** A capture whose URL never becomes a submission URL. *)
Definition problem_page : nat -> jsstring :=
  fun _ => js "https://leetcode.com/problems/two-sum/".

(** The URL turns into the submission URL at the third read. *)
Definition late_location : nat -> jsstring :=
  fun attempt =>
    if (attempt <? 3)%nat then js "https://leetcode.com/problems/two-sum/"
    else submission_url.

(** ** Nine pending polls, then an accepted result *)

Definition pending_data : SubmissionData unit :=
  {| state := js "PENDING"; status_msg := js "";
     finished := false; payload := tt |}.

Definition accepted_data : SubmissionData unit :=
  {| state := js "SUCCESS"; status_msg := js "Accepted";
     finished := true; payload := tt |}.

Definition rejected_data : SubmissionData unit :=
  {| state := js "SUCCESS"; status_msg := js "Not Accepted";
     finished := true; payload := tt |}.

Definition nine_pending_then_accepted (attempt : nat)
  : option (SubmissionData unit) :=
  if (attempt <? 10)%nat then Some pending_data else Some accepted_data.

(** ** A repository with the same problem in two language folders *)

Definition contents_url : jsstring :=
  js "https://api.github.com/repos/alice/leetcode/contents/".

Definition root_listing : list Entry :=
  [ {| type := js "dir"; name := js "python" |};
    {| type := js "dir"; name := js "js" |};
    {| type := js "file"; name := js "README.md" |} ].

Definition python_listing : list Entry :=
  [ {| type := js "file"; name := two_sum_py |};
    {| type := js "file"; name := js "notes.txt" |};
    {| type := js "dir"; name := js "0002 add-two-numbers.py" |} ].

Definition js_listing : list Entry :=
  [ {| type := js "file"; name := two_sum_js |} ].

Definition github (n : nat) (url : jsstring) : FetchResult :=
  if str_eqb url contents_url then Response true 200 (JsonArray root_listing)
  else if str_eqb url (contents_url ++ js "python")
  then Response true 200 (JsonArray python_listing)
  else if str_eqb url (contents_url ++ js "js")
  then Response true 200 (JsonArray js_listing)
  else Response false 404 JsonNotArray.

(** The same repository while the [python] folder cannot be fetched. *)
Definition github_python_down (n : nat) (url : jsstring) : FetchResult :=
  if str_eqb url (contents_url ++ js "python")
  then NetworkError (TypeError (js "Failed to fetch"))
  else github n url.

Definition catalog : list Question :=
  [ {| q_questionId := js "1"; q_difficulty := Some (js "Easy") |};
    {| q_questionId := js "2"; q_difficulty := Some (js "Medium") |} ].

(** The first scenario of the specification: three files, one of them
    without a catalog entry. *)
Definition three_files : list ProblemFile :=
  [ {| originalName := js "0001 two-sum.py"; questionId := js "1";
       language := js "python" |};
    {| originalName := js "0002 add-two-numbers.go"; questionId := js "2";
       language := js "go" |};
    {| originalName := js "0099 unmatched.py"; questionId := js "99";
       language := js "python" |} ].

Definition failing_sync (st : gmap jsstring JsValue)
  : completion SyncResult * gmap jsstring JsValue :=
  (Normal {| success := false; message := js "No solved problems found" |},
   <[js "leetcode_tracker_sync_in_progress" := VBool true]> st).

Definition iso (t : Z) : jsstring := js "2025-01-01T00:00:00.000Z".

Definition env : Env :=
  {| fetch := github;
     syncService_startSync := failing_sync;
     fetchAllQuestionsDifficulty := Normal catalog;
     toISOString := iso |}.

Definition env_python_down : Env :=
  {| fetch := github_python_down;
     syncService_startSync := failing_sync;
     fetchAllQuestionsDifficulty := Normal catalog;
     toISOString := iso |}.

Definition configured_storage : gmap jsstring JsValue :=
  <[js "leetcode_tracker_token" := VString (js "ghp_token")]>
  (<[js "leetcode_tracker_username" := VString (js "alice")]>
  (<[js "leetcode_tracker_repo" := VString (js "leetcode")]> ∅)).

(** Counters settled by an earlier pass. *)
Definition settled : State :=
  {| counter := {| easy := 3; medium := 2; hard := 1 |};
     isCountingComplete := true;
     lastUpdate := Some 1000%Z;
     loading := false |}.

Definition world : World :=
  {| manager := settled; storage := configured_storage; sent := [];
     now := 2000%Z; requests := 0 |}.

End Examples.

(** * The rest of the background script *)

Module Messages.
Import Background.
Local Open Scope js_scope.

(** A message as the listener reads it: its [type], and the fields the
    handlers use. *)
Record Request : Type := mkRequest {
  req_type : JsValue;
  req_difficulty : option jsstring;
  req_username : jsstring;
  req_token : jsstring;
}.

(** What a handler passes to [sendResponse]. *)
Inductive Response : Type :=
| SuccessResponse (success : option bool)
| ConfigResponse
| StatusResponse (status : jsstring) (error : option jsstring)
| NullResponse.

(** [saveUserInfos(request)] *)
Definition saveUserInfos (request : Request) : M unit :=
  storage_set
    [(js "leetcode_tracker_username", VString (req_username request));
     (js "leetcode_tracker_token", VString (req_token request))].

(** The names under which [handlers[request.type]] finds a function of
    [Object.prototype] that returns when called without arguments, and
    those under which it finds something whose call throws
    ([__proto__] is an object, the two [__define...__] methods reject a
    missing function). *)
Definition inherited_returning : list string :=
  ["constructor"; "hasOwnProperty"; "isPrototypeOf"; "propertyIsEnumerable";
   "toLocaleString"; "toString"; "valueOf"; "__lookupGetter__";
   "__lookupSetter__"]%string.

Definition inherited_throwing : list string :=
  ["__proto__"; "__defineGetter__"; "__defineSetter__"]%string.

Definition is_one_of (names : list string) (key : jsstring) : bool :=
  existsb (fun n => str_eqb key (js n)) names.

(** The listener of [initializeMessageListeners]: the responses it
    sends for one message.  The two asynchronous handlers are run to
    their end. *)
Definition handle_message (env : Env) (request : Request) : M (list Response) :=
  let key := ToString (req_type request) in
  if str_eqb key (js "updateDifficultyStats") then
    success <- incrementCounter (req_difficulty request) ;;
    ret [SuccessResponse success]
  else if str_eqb key (js "getDataConfig") then
    ret [ConfigResponse]
  else if str_eqb key (js "saveUserInfos") then
    saveUserInfos request ;;
    ret [SuccessResponse (Some true)]
  else if str_eqb key (js "syncSolvedProblems") then
    try_catch
      (startSync env ;;
       ret [StatusResponse (js "completed") None])
      (fun error =>
         ret [StatusResponse (js "failed") (Some (error_message error))])
  else if str_eqb key (js "requestInitialStats") then
    try_catch
      (initCounter env ;;
       ret [NullResponse])
      (fun error =>
         ret [StatusResponse (js "failed") (Some (error_message error))])
  else if is_one_of inherited_throwing key then
    throw (TypeError (js "handlers[request.type] is not a function"))
  else ret [].


Definition is_undefined (v : JsValue) : bool :=
  match v with
  | VUndefined => true
  | _ => false
  end.

Definition code_submit_key : jsstring := js "leetcode_tracker_code_submit".
Definition multiple_submission_key : jsstring :=
  js "leetcode_tracker_sync_multiple_submission".
Definition comment_submission_key : jsstring :=
  js "leetcode_tracker_comment_submission".
Definition auto_sync_key : jsstring := js "leetcode_tracker_auto_sync".

(** The [chrome.runtime.onInstalled] listener.  The four storage
    operations touch four different keys, so the order in which their
    callbacks run does not matter; they are run in source order. *)
Definition onInstalled (reason : jsstring) : M unit :=
  if str_eqb reason (js "install") || str_eqb reason (js "update") then
    code_submit <- storage_get code_submit_key ;;
    (if is_undefined code_submit
     then storage_set [(code_submit_key, VBool true)]
     else ret tt) ;;
    storage_set [(multiple_submission_key, VBool false)] ;;
    storage_set [(comment_submission_key, VBool false)] ;;
    auto_sync <- storage_get auto_sync_key ;;
    (if is_undefined auto_sync
     then storage_set [(auto_sync_key, VBool true)]
     else ret tt)
  else ret tt.

(** Storage after the listener ran for an install or an update: a
    key that reads [undefined] gets its default [true], the two
    submission flags are set to [false]. *)
Definition with_default (key : jsstring) (m : gmap jsstring JsValue)
  : gmap jsstring JsValue :=
  if is_undefined (default VUndefined (m !! key))
  then <[key := VBool true]> m else m.

Definition installed_storage (m : gmap jsstring JsValue)
  : gmap jsstring JsValue :=
  with_default auto_sync_key
    (<[comment_submission_key := VBool false]>
       (<[multiple_submission_key := VBool false]>
          (with_default code_submit_key m))).

(** What a key reads as, [undefined] when it was never set. *)
Definition read (w : World) (key : jsstring) : JsValue :=
  default VUndefined (storage w !! key).

Definition username_key : jsstring := js "leetcode_tracker_username".
Definition token_key : jsstring := js "leetcode_tracker_token".
Definition repo_key : jsstring := js "leetcode_tracker_repo".

(** A string without the code unit [c]. *)
Definition free_of (c : code_unit) (s : jsstring) : bool :=
  forallb (fun d => negb (d =? c)) s.

(** The difficulty names the counter knows, in any mix of cases. *)
Definition is_tier_name (d : jsstring) : bool :=
  str_eqb (toLowerCase d) (js "easy") || str_eqb (toLowerCase d) (js "medium")
  || str_eqb (toLowerCase d) (js "hard").

(** The last entry of the catalog for an identifier. *)
Fixpoint last_entry (id : jsstring) (allQuestions : list Question)
  : option (option jsstring) :=
  match allQuestions with
  | [] => None
  | q :: rest =>
      match last_entry id rest with
      | Some d => Some d
      | None => if str_eqb (q_questionId q) id then Some (q_difficulty q)
                else None
      end
  end.

(** Observers are in step with the state manager: the last
    [statsUpdate] message sent carries the current statistics. *)
Definition in_step (w : World) : Prop :=
  exists before, sent w = before ++ [getStats (manager w)].

(** A scanned file that can move a counter: the catalog gives it a
    difficulty that is one of the three tier names. *)
Definition counted (allQuestions : list Question) (problem : ProblemFile)
  : bool :=
  match tier_of allQuestions problem with
  | Some d => is_tier_name d
  | None => false
  end.

End Messages.

(** * The page side: problem URLs and names *)

Module Page.

Fixpoint starts_with (p s : jsstring) : bool :=
  match p, s with
  | [], _ => true
  | c :: p', d :: s' => (c =? d) && starts_with p' s'
  | _ :: _, [] => false
  end.

(** [s.includes(p)] *)
Fixpoint includes_string (p s : jsstring) : bool :=
  starts_with p s ||
  match s with
  | [] => false
  | _ :: s' => includes_string p s'
  end.

(** [s.replace(p, r)] with a string pattern: the first occurrence only. *)
Fixpoint replace_first (p r s : jsstring) : jsstring :=
  if starts_with p s then r ++ drop (length p) s
  else match s with
       | [] => []
       | c :: s' => c :: replace_first p r s'
       end.

Definition problems_marker : jsstring := js "leetcode.com/problems/".
Definition problems_prefix : jsstring := js "https://leetcode.com/problems/".

(** [url.replace("https://leetcode.com/problems/", "").split("/")[0]] *)
Definition problemName (url : jsstring) : jsstring :=
  nth 0 (Background.split 47 (replace_first problems_prefix [] url)) [].

(** The two fields [loadProblemFromURL()] assigns (the method of
    part_002, [setProblemUrlFromCurrentPage] in the copy under
    [scripts/models]). *)
Record Location : Type := mkLocation {
  problemUrl : jsstring;
  slug : jsstring;
}.

Definition loadProblemFromURL (url : jsstring) (this : Location) : Location :=
  if includes_string problems_marker url then
    {| problemUrl := js "/problems/" ++ problemName url ++ js "/";
       slug := problemName url |}
  else this.

(** [getDescriptionUrl()] of the first copy under [scripts/models]: the
    new [problemUrl] and the URL returned. *)
Definition getDescriptionUrl (url : jsstring) (this : Location)
  : Location * jsstring :=
  if includes_string problems_marker url then
    ({| problemUrl := js "/problems/" ++ problemName url ++ js "/";
        slug := slug this |},
     problems_prefix ++ problemName url ++ js "/description/")
  else (this, []).

(** [formatProblemName(problemName)]:
    [problemName.replace(".", "-").split(" ").join("")] *)
Definition formatProblemName (name : jsstring) : jsstring :=
  concat (Background.split 32 (replace_first [46] [45] name)).

(** [extractDifficultyFromDOM(iframeDocument)], as a function of which
    of the three difficulty elements the document has. *)
Definition extractDifficultyFromDOM (easy medium hard : bool) : jsstring :=
  if easy then js "easy"
  else if medium then js "medium"
  else if hard then js "hard"
  else [].

End Page.

(** * More concrete inputs *)

Module MoreExamples.
Import Background Messages.



(** A profile where the user switched code submission off. *)
Definition opted_out_world : World :=
  {| manager := initial_state;
     storage := <[code_submit_key := VBool false]> ∅; sent := [];
     now := 0%Z; requests := 0 |}.

Definition two_sum_url : jsstring :=
  js "https://leetcode.com/problems/two-sum/submissions/1774457019/".

End MoreExamples.

(** * Regular expressions: the matcher decides the language *)

Section RegexFacts.

Create HintDb regex.
Local Hint Constructors lang : regex.

Lemma lang_nil_nullable r : lang r [] -> nullable r = true.
Proof.
  intros H. remember (@nil N) as s eqn:Hs.
  induction H; simpl; auto.
  - discriminate.
  - apply app_eq_nil in Hs as [-> ->]. rewrite IHlang1, IHlang2; auto.
  - rewrite IHlang; auto.
  - rewrite IHlang; auto using orb_true_r.
Qed.

Lemma nullable_lang_nil r : nullable r = true -> lang r [].
Proof.
  induction r; simpl; intros H; try discriminate; auto with regex.
  - apply andb_true_iff in H as [H1 H2].
    change (@nil N) with (@nil N ++ []). auto with regex.
  - apply orb_true_iff in H as [H|H]; auto with regex.
Qed.

Lemma lang_star_uncons r c s :
  lang (Star r) (c :: s) ->
  exists s1 s2, s = s1 ++ s2 /\ lang r (c :: s1) /\ lang (Star r) s2.
Proof.
  intros H. remember (Star r) as r' eqn:Hr. remember (c :: s) as t eqn:Ht.
  induction H; try discriminate.
  injection Hr as ->.
  destruct s1 as [|d s1]; simpl in Ht.
  - auto.
  - injection Ht as -> <-. eauto.
Qed.

Lemma lang_cat_inv r1 r2 s :
  lang (Cat r1 r2) s -> exists s1 s2, s = s1 ++ s2 /\ lang r1 s1 /\ lang r2 s2.
Proof. inversion 1; subst; eauto. Qed.

Lemma lang_class_inv p s :
  lang (Class p) s -> exists c, s = [c] /\ p c = true.
Proof. inversion 1; subst; eauto. Qed.

Lemma lang_eps_inv s : lang Eps s -> s = [].
Proof. inversion 1; reflexivity. Qed.

Lemma lang_alt_inv r1 r2 s : lang (Alt r1 r2) s -> lang r1 s \/ lang r2 s.
Proof. inversion 1; subst; auto. Qed.

Lemma lang_void_inv s : ~ lang Void s.
Proof. inversion 1. Qed.

Lemma deriv_sound c r s : lang (deriv c r) s -> lang r (c :: s).
Proof.
  revert s. induction r; simpl; intros s H.
  - destruct (lang_void_inv _ H).
  - destruct (lang_void_inv _ H).
  - destruct (p c) eqn:Hp; [|destruct (lang_void_inv _ H)].
    apply lang_eps_inv in H as ->. auto with regex.
  - assert (Hcat : forall t, lang (Cat (deriv c r1) r2) t ->
                             lang (Cat r1 r2) (c :: t)).
    { intros t Ht. apply lang_cat_inv in Ht as (s1 & s2 & -> & H1 & H2).
      change (c :: s1 ++ s2) with ((c :: s1) ++ s2). auto with regex. }
    destruct (nullable r1) eqn:Hn; [|auto].
    apply lang_alt_inv in H as [H|H]; [auto|].
    change (c :: s) with ([] ++ c :: s).
    auto using nullable_lang_nil with regex.
  - apply lang_alt_inv in H as [H|H]; auto with regex.
  - apply lang_cat_inv in H as (s1 & s2 & -> & H1 & H2).
    change (c :: s1 ++ s2) with ((c :: s1) ++ s2). auto with regex.
Qed.

Lemma deriv_complete c r s : lang r (c :: s) -> lang (deriv c r) s.
Proof.
  revert s. induction r; simpl; intros s H.
  - destruct (lang_void_inv _ H).
  - apply lang_eps_inv in H. discriminate.
  - apply lang_class_inv in H as (d & [= -> ->] & Hp). rewrite Hp. auto with regex.
  - apply lang_cat_inv in H as (s1 & s2 & Hs & H1 & H2).
    destruct s1 as [|d s1]; simpl in Hs.
    + subst s2. rewrite (lang_nil_nullable _ H1). auto with regex.
    + injection Hs as -> ->.
      destruct (nullable r1); auto with regex.
  - apply lang_alt_inv in H as [H|H]; auto with regex.
  - apply lang_star_uncons in H as (s1 & s2 & -> & H1 & H2). auto with regex.
Qed.

Lemma matches_lang r s : matches r s = true <-> lang r s.
Proof.
  revert r. induction s as [|c s IH]; intros r; simpl.
  - split; auto using nullable_lang_nil, lang_nil_nullable.
  - rewrite IH. split; auto using deriv_sound, deriv_complete.
Qed.

Lemma matches_prefix_lang r s :
  matches_prefix r s = true <-> exists p q, s = p ++ q /\ lang r p.
Proof.
  revert r. induction s as [|c s IH]; intros r; simpl.
  - rewrite orb_false_r. split.
    + intros H. exists [], []. auto using nullable_lang_nil.
    + intros (p & q & Hs & H). symmetry in Hs.
      apply app_eq_nil in Hs as [-> ->]. auto using lang_nil_nullable.
  - rewrite orb_true_iff, IH. split.
    + intros [H | (p & q & -> & H)].
      * exists [], (c :: s). auto using nullable_lang_nil.
      * exists (c :: p), q. auto using deriv_sound.
    + intros (p & q & Hs & H). destruct p as [|d p]; simpl in Hs.
      * left. auto using lang_nil_nullable.
      * injection Hs as -> ->. right. eauto using deriv_complete.
Qed.

Lemma lang_plus_class_inv p s :
  lang (Plus (Class p)) s -> exists c s', s = c :: s' /\ p c = true.
Proof.
  intros H. apply lang_cat_inv in H as (s1 & s2 & -> & H1 & _).
  apply lang_class_inv in H1 as (c & -> & Hp). simpl. eauto.
Qed.

End RegexFacts.

(** * File names and canonical identifiers *)

Lemma problem_file_shape f :
  matches problem_file_pattern f = true ->
  exists d1 d2 d3 d4 w rest,
    f = d1 :: d2 :: d3 :: d4 :: w :: rest /\
    is_digit d1 = true /\ is_digit d2 = true /\ is_digit d3 = true /\
    is_digit d4 = true /\ is_space w = true.
Proof.
  intros H. apply matches_lang in H. unfold problem_file_pattern in H.
  apply lang_cat_inv in H as (ds & t & -> & Hd & Ht).
  simpl in Hd.
  apply lang_cat_inv in Hd as (x1 & t1 & -> & Hx1 & Hd).
  apply lang_cat_inv in Hd as (x2 & t2 & -> & Hx2 & Hd).
  apply lang_cat_inv in Hd as (x3 & t3 & -> & Hx3 & Hd).
  apply lang_cat_inv in Hd as (x4 & t4 & -> & Hx4 & Hd).
  apply lang_eps_inv in Hd as ->.
  apply lang_class_inv in Hx1 as (d1 & -> & H1).
  apply lang_class_inv in Hx2 as (d2 & -> & H2).
  apply lang_class_inv in Hx3 as (d3 & -> & H3).
  apply lang_class_inv in Hx4 as (d4 & -> & H4).
  apply lang_cat_inv in Ht as (ws & t' & -> & Hw & _).
  apply lang_plus_class_inv in Hw as (w & ws' & -> & Hw).
  exists d1, d2, d3, d4, w, (ws' ++ t'). simpl. auto 10.
Qed.

Lemma slug_prefix_matches d1 d2 d3 d4 w rest :
  is_digit d1 = true -> is_digit d2 = true -> is_digit d3 = true ->
  is_digit d4 = true -> is_space w = true ->
  matches_prefix slug_prefix_pattern (d1 :: d2 :: d3 :: d4 :: w :: rest) = true.
Proof.
  intros H1 H2 H3 H4 Hw. apply matches_prefix_lang.
  exists [d1; d2; d3; d4; w], rest. split; [reflexivity|].
  unfold slug_prefix_pattern.
  change [d1; d2; d3; d4; w] with ([d1; d2; d3; d4] ++ [w]).
  apply lang_cat.
  - simpl.
    apply (lang_cat _ _ [d1] [d2; d3; d4]); [by constructor|].
    apply (lang_cat _ _ [d2] [d3; d4]); [by constructor|].
    apply (lang_cat _ _ [d3] [d4]); [by constructor|].
    apply (lang_cat _ _ [d4] []); [by constructor|constructor].
  - apply (lang_cat _ _ [w] []); [by constructor|constructor].
Qed.

Lemma is_digit_In c : is_digit c = true -> In c digit_units.
Proof.
  unfold is_digit. rewrite andb_true_iff, N.leb_le, N.leb_le. intros [Hl Hu].
  assert (Hc : c = 48 \/ c = 49 \/ c = 50 \/ c = 51 \/ c = 52 \/ c = 53 \/
               c = 54 \/ c = 55 \/ c = 56 \/ c = 57) by lia.
  simpl. intuition auto.
Qed.

Lemma four_digits_checked :
  forallb (fun d1 => forallb (fun d2 => forallb (fun d3 => forallb (fun d4 =>
    let ds := [d1; d2; d3; d4] in
    let out := Number_toString (parseInt10 ds) in
    str_eqb out (strip_leading_zeros ds)
    && negb (matches_prefix slug_prefix_pattern out))
    digit_units) digit_units) digit_units) digit_units = true.
Proof. vm_compute. reflexivity. Qed.

Lemma str_eqb_eq s t : str_eqb s t = true <-> s = t.
Proof.
  revert t. induction s as [|c s IH]; intros [|d t]; simpl; try easy.
  rewrite andb_true_iff, N.eqb_eq, IH. split.
  - intros [-> ->]. reflexivity.
  - intros [= -> ->]. auto.
Qed.

Lemma four_digits d1 d2 d3 d4 :
  is_digit d1 = true -> is_digit d2 = true -> is_digit d3 = true ->
  is_digit d4 = true ->
  let out := Number_toString (parseInt10 [d1; d2; d3; d4]) in
  out = strip_leading_zeros [d1; d2; d3; d4] /\
  matches_prefix slug_prefix_pattern out = false.
Proof.
  intros H1 H2 H3 H4.
  pose proof four_digits_checked as H.
  rewrite forallb_forall in H. specialize (H d1 (is_digit_In _ H1)).
  rewrite forallb_forall in H. specialize (H d2 (is_digit_In _ H2)).
  rewrite forallb_forall in H. specialize (H d3 (is_digit_In _ H3)).
  rewrite forallb_forall in H. specialize (H d4 (is_digit_In _ H4)).
  cbv zeta in H. apply andb_true_iff in H as [Ha Hb].
  apply str_eqb_eq in Ha. apply negb_true_iff in Hb. auto.
Qed.

(** C1 (as amended).  For every file name matching [^\d{4}\s+.+\..+$],
    [convertGithubToLeetCodeSlug] returns the four-digit prefix with its
    leading zeros stripped; the derivation is not idempotent: applied to
    its own result it returns the empty string. *)
Theorem convertGithubToLeetCodeSlug_strips_zeros (f : jsstring) :
  matches problem_file_pattern f = true ->
  convertGithubToLeetCodeSlug f = strip_leading_zeros (take 4 f) /\
  convertGithubToLeetCodeSlug (convertGithubToLeetCodeSlug f) = [].
Proof.
  intros H.
  destruct (problem_file_shape f H)
    as (d1 & d2 & d3 & d4 & w & rest & -> & H1 & H2 & H3 & H4 & Hw).
  assert (Hc : convertGithubToLeetCodeSlug (d1 :: d2 :: d3 :: d4 :: w :: rest)
               = Number_toString (parseInt10 [d1; d2; d3; d4])).
  { unfold convertGithubToLeetCodeSlug.
    rewrite slug_prefix_matches by assumption. reflexivity. }
  rewrite Hc.
  change (take 4 (d1 :: d2 :: d3 :: d4 :: w :: rest)) with [d1; d2; d3; d4].
  destruct (four_digits d1 d2 d3 d4 H1 H2 H3 H4) as [Hout Hno].
  split; [exact Hout|].
  unfold convertGithubToLeetCodeSlug. rewrite Hno. reflexivity.
Qed.

Lemma convertGithubToLeetCodeSlug_strips_zeros_witness :
  matches problem_file_pattern Examples.two_sum_py = true /\
  convertGithubToLeetCodeSlug Examples.two_sum_py = js "1" /\
  convertGithubToLeetCodeSlug (convertGithubToLeetCodeSlug Examples.two_sum_py) = [].
Proof.
  split; [reflexivity|].
  apply (convertGithubToLeetCodeSlug_strips_zeros Examples.two_sum_py).
  reflexivity.
Defined.

(** C1 (as stated) fails: deriving twice from ["0001 two-sum.py"] gives
    the empty string, deriving once gives ["1"]. *)
Lemma convertGithubToLeetCodeSlug_not_idempotent :
  matches problem_file_pattern Examples.two_sum_py = true /\
  convertGithubToLeetCodeSlug (convertGithubToLeetCodeSlug Examples.two_sum_py)
  <> convertGithubToLeetCodeSlug Examples.two_sum_py.
Proof. split; [reflexivity|]. vm_compute. discriminate. Qed.

(** * The submission poller *)

Section PollerFacts.
Import Poller.

Lemma poll_cycles_app l1 l2 :
  poll_cycles (l1 ++ l2) = (poll_cycles l1 + poll_cycles l2)%nat.
Proof. unfold poll_cycles. by rewrite List.filter_app, length_app. Qed.

Lemma location_reads_app l1 l2 :
  location_reads (l1 ++ l2) = (location_reads l1 + location_reads l2)%nat.
Proof. unfold location_reads. by rewrite List.filter_app, length_app. Qed.

Lemma slept_app l1 l2 : slept (l1 ++ l2) = (slept l1 + slept l2)%Z.
Proof.
  induction l1 as [|e l1 IH]; simpl; [lia|].
  destruct e; rewrite IH; lia.
Qed.

(** ** The location-resolution loop *)

Lemma waitForSubmissionURL_loop_total (location : nat -> jsstring) fuel :
  forall attempt log,
    (1 <= attempt <= S url_maxAttempts)%nat ->
    (url_maxAttempts + 2 <= fuel + attempt)%nat ->
    exists r log',
      waitForSubmissionURL_loop location fuel attempt log = Some (r, log ++ log')
      /\ (location_reads log' + attempt <= S url_maxAttempts)%nat
      /\ (slept log' <= url_pollInterval * Z.of_nat (url_maxAttempts - attempt))%Z
      /\ match r with
         | Some id =>
             exists n, (attempt <= n <= url_maxAttempts)%nat
               /\ getSubmissionIdFromURL (location n) = Some id
               /\ truthy_string id = true
               /\ (forall m, (attempt <= m < n)%nat ->
                     truthy_id (getSubmissionIdFromURL (location m)) = false)
               /\ (location_reads log' + attempt = S n)%nat
         | None =>
             (forall m, (attempt <= m <= url_maxAttempts)%nat ->
                truthy_id (getSubmissionIdFromURL (location m)) = false)
             /\ (location_reads log' + attempt = S url_maxAttempts)%nat
         end.
Proof.
  unfold url_maxAttempts, url_pollInterval.
  induction fuel as [|fuel IH]; intros attempt log Ha Hf; [lia|].
  simpl. unfold url_maxAttempts, url_pollInterval.
  destruct (Nat.leb_spec attempt 20) as [Hle|Hgt].
  - destruct (truthy_id (getSubmissionIdFromURL (location attempt))) eqn:Ht.
    + exists (getSubmissionIdFromURL (location attempt)), [ReadLocation].
      split; [reflexivity|]. split; [simpl; lia|]. split; [simpl; lia|].
      destruct (getSubmissionIdFromURL (location attempt)) as [id|] eqn:Hid;
        [|discriminate].
      exists attempt. repeat split; try lia; auto.
    + set (pause := if (attempt <? 20)%nat then [Sleep 500%Z] else []).
      assert (Hlog : (if (attempt <? 20)%nat
                      then (log ++ [ReadLocation]) ++ [Sleep 500%Z]
                      else log ++ [ReadLocation])
                     = log ++ [ReadLocation] ++ pause).
      { unfold pause. destruct (attempt <? 20)%nat;
          rewrite <- ?app_assoc; reflexivity. }
      rewrite Hlog.
      destruct (IH (S attempt) (log ++ [ReadLocation] ++ pause)
                  ltac:(lia) ltac:(lia))
        as (r & log' & Hrun & Hreads & Hslept & Hr).
      exists r, ([ReadLocation] ++ pause ++ log').
      split; [rewrite Hrun; by rewrite <- !app_assoc|].
      assert (Hpause : location_reads pause = 0%nat
                       /\ (slept pause <= 500)%Z
                       /\ (attempt = 20%nat -> slept pause = 0%Z)).
      { unfold pause. destruct (Nat.ltb_spec attempt 20); simpl;
          repeat split; lia. }
      destruct Hpause as (Hp0 & Hp1 & Hp2).
      rewrite !location_reads_app, !slept_app, Hp0.
      change (location_reads [ReadLocation]) with 1%nat.
      change (slept [ReadLocation]) with 0%Z.
      split; [lia|]. split; [lia|].
      destruct r as [id|].
      * destruct Hr as (n & Hn & Hget & Hid & Hbefore & Hcount).
        exists n. repeat split; try lia; auto.
        intros m Hm. destruct (Nat.eq_dec m attempt) as [->|Hne]; [exact Ht|].
        apply Hbefore. lia.
      * destruct Hr as [Hnone Hcount]. split; [|lia].
        intros m Hm. destruct (Nat.eq_dec m attempt) as [->|Hne]; [exact Ht|].
        apply Hnone. lia.
  - exists None, []. rewrite app_nil_r. split; [reflexivity|].
    assert (attempt = 21)%nat as -> by lia. simpl.
    repeat split; try lia.
Qed.

(** C8.  Whatever the page URL does, [waitForSubmissionURL] ends after
    at most 20 reads of the location (and at most 9.5 seconds of
    sleeping): it returns the identifier found at the first attempt that
    shows one, or [null] after 20 attempts without one. *)
Theorem waitForSubmissionURL_bounded (location : nat -> jsstring) (extra : nat) :
  exists r log,
    waitForSubmissionURL location (S url_maxAttempts + extra) = Some (r, log)
    /\ (location_reads log <= url_maxAttempts)%nat
    /\ (slept log <= 9500)%Z
    /\ match r with
       | Some id =>
           exists n, (1 <= n <= url_maxAttempts)%nat
             /\ getSubmissionIdFromURL (location n) = Some id
             /\ (forall m, (1 <= m < n)%nat ->
                   truthy_id (getSubmissionIdFromURL (location m)) = false)
             /\ location_reads log = n
       | None =>
           (forall m, (1 <= m <= url_maxAttempts)%nat ->
              truthy_id (getSubmissionIdFromURL (location m)) = false)
           /\ location_reads log = url_maxAttempts
       end.
Proof.
  destruct (waitForSubmissionURL_loop_total location
              (S url_maxAttempts + extra) 1 [])
    as (r & log & Hrun & Hreads & Hslept & Hr);
    [unfold url_maxAttempts; lia | lia |].
  exists r, log. split; [exact Hrun|].
  unfold url_maxAttempts, url_pollInterval in *.
  split; [lia|]. split; [simpl in Hslept; lia|].
  destruct r as [id|].
  - destruct Hr as (n & Hn & Hget & _ & Hbefore & Hcount).
    exists n. repeat split; try lia; auto.
  - destruct Hr as [Hnone Hcount]. split; [auto|lia].
Qed.

Lemma waitForSubmissionURL_never_appears :
  waitForSubmissionURL Examples.problem_page 21 <> None /\
  (fst <$> waitForSubmissionURL Examples.problem_page 21) = Some None /\
  (fst <$> waitForSubmissionURL Examples.late_location 21)
  = Some (Some (js "1774457019")).
Proof. vm_compute. repeat split; discriminate. Qed.

(** ** The result-readiness loop *)

Lemma poll_cycles_waiting_log id m : poll_cycles (waiting_log id m) = m.
Proof. induction m as [|m IH]; [reflexivity|]. unfold poll_cycles in *. simpl. by rewrite IH. Qed.

Lemma waiting_log_snoc id m :
  waiting_log id (S m)
  = waiting_log id m ++ [FetchSubmission id; Sleep poll_pollInterval].
Proof. induction m as [|m IH]; [reflexivity|]. simpl in *. by rewrite IH. Qed.

(** One evaluation of the loop body on a response that keeps polling,
    below the ceiling. *)
Lemma pollForSubmissionData_loop_continue {Payload : Type}
    (fetch : nat -> option (SubmissionData Payload)) id fuel attempt log data :
  (attempt < poll_maxAttempts)%nat ->
  fetch attempt = Some data ->
  keeps_polling data = true ->
  pollForSubmissionData_loop fetch id (S fuel) attempt log
  = pollForSubmissionData_loop fetch id fuel (S attempt)
      (log ++ [FetchSubmission id; Sleep poll_pollInterval]).
Proof.
  unfold poll_maxAttempts, keeps_polling. intros Hlt Hfetch Hkeep. simpl.
  unfold poll_maxAttempts.
  destruct (Nat.leb_spec attempt 10); [|lia].
  destruct (Nat.ltb_spec attempt 10); [|lia].
  rewrite Hfetch. rewrite <- app_assoc. simpl.
  destruct (str_eqb (state data) (js "PENDING")); [reflexivity|].
  simpl in Hkeep. apply negb_true_iff in Hkeep. rewrite Hkeep.
  rewrite andb_false_r. reflexivity.
Qed.

Lemma pollForSubmissionData_loop_skip {Payload : Type}
    (fetch : nat -> option (SubmissionData Payload)) id fuel m :
  forall attempt log,
    (attempt + m <= poll_maxAttempts)%nat ->
    (forall k, (attempt <= k < attempt + m)%nat ->
       exists data, fetch k = Some data /\ keeps_polling data = true) ->
    pollForSubmissionData_loop fetch id (m + fuel) attempt log
    = pollForSubmissionData_loop fetch id fuel (attempt + m)
        (log ++ waiting_log id m).
Proof.
  induction m as [|m IH]; intros attempt log Hle Hkeep.
  - simpl. by rewrite Nat.add_0_r, app_nil_r.
  - destruct (Hkeep attempt ltac:(lia)) as (data & Hfetch & Hdata).
    change (S m + fuel)%nat with (S (m + fuel)).
    rewrite (pollForSubmissionData_loop_continue fetch id _ attempt log data)
      by (auto; lia).
    rewrite IH; [|lia|intros k Hk; apply Hkeep; lia].
    replace (S attempt + m)%nat with (attempt + S m)%nat by lia.
    rewrite <- app_assoc. reflexivity.
Qed.

Lemma pollForSubmissionData_loop_total {Payload : Type}
    (fetch : nat -> option (SubmissionData Payload)) id fuel :
  forall attempt log,
    (1 <= attempt <= S poll_maxAttempts)%nat ->
    (poll_maxAttempts + 2 <= fuel + attempt)%nat ->
    exists r log',
      pollForSubmissionData_loop fetch id fuel attempt log
      = Some (r, log ++ log')
      /\ (poll_cycles log' + attempt <= S poll_maxAttempts)%nat
      /\ ((attempt <= poll_maxAttempts)%nat -> (1 <= poll_cycles log')%nat)
      /\ (slept log'
          <= poll_pollInterval * Z.of_nat (poll_maxAttempts - attempt))%Z.
Proof.
  unfold poll_maxAttempts, poll_pollInterval.
  induction fuel as [|fuel IH]; intros attempt log Ha Hf; [lia|].
  simpl. unfold poll_maxAttempts, poll_pollInterval.
  assert (Hstop : forall r,
    exists (r' : option (SubmissionData Payload)) log',
      Some (r, log ++ [FetchSubmission id]) = Some (r', log ++ log')
      /\ (poll_cycles log' + attempt <= 11)%nat
      /\ ((attempt <= 10)%nat -> (1 <= poll_cycles log')%nat)
      /\ (slept log' <= 1000 * Z.of_nat (10 - attempt))%Z
      \/ (10 < attempt)%nat).
  { intros r. exists r, [FetchSubmission id].
    destruct (Nat.le_gt_cases attempt 10); [left|right; lia].
    split; [reflexivity|]. change (poll_cycles [FetchSubmission id]) with 1%nat.
    simpl. repeat split; lia. }
  assert (Hnext : forall pause,
    pause = [] \/ (pause = [Sleep 1000%Z] /\ (attempt < 10)%nat) ->
    (attempt <= 10)%nat ->
    exists (r' : option (SubmissionData Payload)) log',
      pollForSubmissionData_loop fetch id fuel (S attempt)
        ((log ++ [FetchSubmission id]) ++ pause) = Some (r', log ++ log')
      /\ (poll_cycles log' + attempt <= 11)%nat
      /\ ((attempt <= 10)%nat -> (1 <= poll_cycles log')%nat)
      /\ (slept log' <= 1000 * Z.of_nat (10 - attempt))%Z).
  { intros pause Hpause Hle.
    destruct (IH (S attempt) ((log ++ [FetchSubmission id]) ++ pause)
                ltac:(lia) ltac:(lia))
      as (r & log' & Hrun & Hcycles & _ & Hslept).
    exists r, ([FetchSubmission id] ++ pause ++ log').
    split; [rewrite Hrun; by rewrite <- !app_assoc|].
    rewrite !poll_cycles_app, !slept_app.
    change (poll_cycles [FetchSubmission id]) with 1%nat.
    change (slept [FetchSubmission id]) with 0%Z.
    destruct Hpause as [->|[-> Hlt]]; simpl; repeat split; lia. }
  destruct (Nat.leb_spec attempt 10) as [Hle|Hgt].
  - destruct (fetch attempt) as [data|].
    + destruct (str_eqb (state data) (js "PENDING")).
      * destruct (Nat.ltb_spec attempt 10) as [Hlt|Hge].
        -- apply Hnext; auto.
        -- destruct (Hstop (@None (SubmissionData Payload)))
             as (r & log' & [H|H]); [eauto|lia].
      * destruct (str_eqb (status_msg data) (js "Accepted") && finished data).
        -- destruct (Hstop (Some data)) as (r & log' & [H|H]); [eauto|lia].
        -- destruct (finished data).
           ++ destruct (Hstop (Some data)) as (r & log' & [H|H]); [eauto|lia].
           ++ destruct (Nat.ltb_spec attempt 10) as [Hlt|Hge].
              ** apply Hnext; auto.
              ** rewrite <- (app_nil_r (log ++ [FetchSubmission id])).
                 apply Hnext; auto.
    + destruct (Hstop (@None (SubmissionData Payload)))
        as (r & log' & [H|H]); [eauto|lia].
  - exists None, []. rewrite app_nil_r. split; [reflexivity|].
    assert (attempt = 11)%nat as -> by lia. simpl. repeat split; lia.
Qed.

(** C3.  Let the first [n - 1] responses keep the loop polling.  Then
    the [n]-th response decides as follows: no data returns [null] at
    once, after exactly [n] polls; a response that is not pending and is
    finished is returned, whatever its status message, after exactly [n]
    polls; a pending response (or one that is neither pending nor
    finished) leads to another poll if [n < 10] and to [null] at the
    ceiling.  In all cases the loop ends within 10 polls. *)
Theorem pollForSubmissionData_per_poll {Payload : Type}
    (fetch : nat -> option (SubmissionData Payload))
    (submissionId : jsstring) (n extra : nat) :
  (1 <= n <= poll_maxAttempts)%nat ->
  (forall k, (1 <= k < n)%nat ->
     exists data, fetch k = Some data /\ keeps_polling data = true) ->
  exists r log,
    pollForSubmissionData fetch submissionId (S poll_maxAttempts + extra)
    = Some (r, log)
    /\ (poll_cycles log <= poll_maxAttempts)%nat
    /\ match fetch n with
       | None => r = None /\ poll_cycles log = n
       | Some data =>
           if negb (str_eqb (state data) (js "PENDING")) && finished data
           then r = Some data /\ poll_cycles log = n
           else if (n <? poll_maxAttempts)%nat
                then (n < poll_cycles log)%nat
                else r = None /\ poll_cycles log = poll_maxAttempts
       end.
Proof.
  unfold poll_maxAttempts. intros Hn Hkeep.
  unfold pollForSubmissionData.
  replace (11 + extra)%nat with ((n - 1) + (12 - n + extra))%nat by lia.
  rewrite (pollForSubmissionData_loop_skip fetch submissionId _ (n - 1) 1 []);
    [|unfold poll_maxAttempts; lia|intros k Hk; apply Hkeep; lia].
  replace (1 + (n - 1))%nat with n by lia.
  replace (12 - n + extra)%nat with (S (11 - n + extra)) by lia.
  set (fuel := (11 - n + extra)%nat).
  set (log0 := [] ++ waiting_log submissionId (n - 1)).
  assert (Hlog0 : poll_cycles log0 = (n - 1)%nat)
    by apply poll_cycles_waiting_log.
  assert (Hdone : forall r : option (SubmissionData Payload),
    poll_cycles (log0 ++ [FetchSubmission submissionId]) = n).
  { intros _. rewrite poll_cycles_app, Hlog0.
    change (poll_cycles [FetchSubmission submissionId]) with 1%nat. lia. }
  specialize (Hdone None).
  assert (Hmore : forall data, fetch n = Some data ->
    keeps_polling data = true -> (n < 10)%nat ->
    exists r log,
      pollForSubmissionData_loop fetch submissionId (S fuel) n log0
      = Some (r, log)
      /\ (poll_cycles log <= 10)%nat /\ (n < poll_cycles log)%nat).
  { intros data Hfetch Hdata Hlt.
    rewrite (pollForSubmissionData_loop_continue fetch submissionId fuel n
               log0 data) by (auto; unfold poll_maxAttempts; lia).
    destruct (pollForSubmissionData_loop_total fetch submissionId fuel (S n)
                (log0 ++ [FetchSubmission submissionId;
                          Sleep poll_pollInterval]))
      as (r & log' & Hrun & Hcycles & Hone & _);
      [unfold poll_maxAttempts; lia | unfold poll_maxAttempts, fuel; lia |].
    unfold poll_maxAttempts in *. specialize (Hone ltac:(lia)).
    exists r. eexists. split; [exact Hrun|].
    rewrite !poll_cycles_app, Hlog0.
    change (poll_cycles [FetchSubmission submissionId;
                         Sleep poll_pollInterval]) with 1%nat.
    lia. }
  destruct (fetch n) as [data|] eqn:Hfetch.
  - destruct (str_eqb (state data) (js "PENDING")) eqn:Hpending; simpl.
    + destruct (Nat.ltb_spec n 10) as [Hlt|Hge].
      * destruct (Hmore data eq_refl) as (r & log & Hrun & Hmax & Hgt);
          [unfold keeps_polling; by rewrite Hpending | lia |].
        exists r, log. auto.
      * exists None, (log0 ++ [FetchSubmission submissionId]).
        unfold poll_maxAttempts. rewrite Hfetch, Hpending.
        destruct (Nat.leb_spec n 10); [|lia].
        destruct (Nat.ltb_spec n 10); [lia|].
        repeat split; lia.
    + destruct (finished data) eqn:Hfin.
      * exists (Some data), (log0 ++ [FetchSubmission submissionId]).
        unfold poll_maxAttempts. rewrite Hfetch, Hpending, Hfin.
        destruct (Nat.leb_spec n 10); [|lia].
        rewrite andb_true_r.
        split; [by destruct (str_eqb (status_msg data) (js "Accepted"))|].
        repeat split; lia.
      * destruct (Nat.ltb_spec n 10) as [Hlt|Hge].
        -- destruct (Hmore data eq_refl) as (r & log & Hrun & Hmax & Hgt);
             [unfold keeps_polling; by rewrite Hpending, Hfin | lia |].
           exists r, log. auto.
        -- assert (Hfuel : fuel = S extra) by (subst fuel; clear -Hn Hge; lia).
           exists None, (log0 ++ [FetchSubmission submissionId]).
           unfold poll_maxAttempts. rewrite Hfetch, Hpending, Hfin, andb_false_r.
           destruct (Nat.leb_spec n 10); [|lia].
           destruct (Nat.ltb_spec n 10); [lia|].
           rewrite Hfuel. simpl. unfold poll_maxAttempts.
           destruct (Nat.leb_spec n 9); [lia|].
           repeat split; lia.
  - exists None, (log0 ++ [FetchSubmission submissionId]).
    simpl. unfold poll_maxAttempts. rewrite Hfetch.
    destruct (Nat.leb_spec n 10); [|lia].
    repeat split; lia.
Qed.

(** The scenario of the specification: nine pending polls, then an
    accepted result at the tenth. *)
Lemma pollForSubmissionData_nine_pending_then_accepted :
  (1 <= 10 <= poll_maxAttempts)%nat /\
  exists log,
    pollForSubmissionData Examples.nine_pending_then_accepted
      (js "1774457019") 11
    = Some (Some Examples.accepted_data, log)
    /\ poll_cycles log = 10%nat.
Proof.
  split; [unfold poll_maxAttempts; lia|].
  destruct (pollForSubmissionData_per_poll Examples.nine_pending_then_accepted
              (js "1774457019") 10 0) as (r & log & Hrun & _ & Hr).
  - unfold poll_maxAttempts; lia.
  - intros k Hk. exists Examples.pending_data. split; [|reflexivity].
    unfold Examples.nine_pending_then_accepted.
    destruct (Nat.ltb_spec k 10); [reflexivity|lia].
  - simpl in Hr. destruct Hr as [-> Hcycles].
    exists log. split; [exact Hrun|exact Hcycles].
Defined.

(** A finished result that was not accepted is returned all the same. *)
Lemma pollForSubmissionData_rejected_is_returned :
  (fst <$> pollForSubmissionData (fun _ => Some Examples.rejected_data)
             (js "1774457019") 11)
  = Some (Some Examples.rejected_data).
Proof. reflexivity. Qed.

(** With the [fetchSubmissionData] of part_002 a response is never
    pending: it is [null] or finished, so the loop ends at its first
    poll. *)
Lemma pollForSubmissionData_graphql_single_poll {Payload : Type}
    (answers : nat -> GraphQLOutcome Payload) id extra :
  exists log,
    pollForSubmissionData (fun attempt => fetchSubmissionData (answers attempt))
      id (S extra)
    = Some (fetchSubmissionData (answers 1%nat), log)
    /\ poll_cycles log = 1%nat.
Proof.
  exists [FetchSubmission id]. split; [|reflexivity].
  unfold pollForSubmissionData. simpl.
  destruct (answers 1%nat); try reflexivity.
  simpl. by destruct (statusCode =? 10)%Z.
Qed.

(** ** The poller as a whole *)

Lemma pollForSubmissionData_loop_log {Payload : Type}
    (fetch : nat -> option (SubmissionData Payload)) id fuel :
  forall attempt log,
    pollForSubmissionData_loop fetch id fuel attempt log
    = (fun '(r, l) => (r, log ++ l))
      <$> pollForSubmissionData_loop fetch id fuel attempt [].
Proof.
  induction fuel as [|fuel IH]; intros attempt log; [reflexivity|].
  simpl.
  destruct (attempt <=? poll_maxAttempts)%nat;
    [|simpl; by rewrite app_nil_r].
  destruct (fetch attempt) as [data|]; [|reflexivity].
  destruct (str_eqb (state data) (js "PENDING")).
  - destruct (attempt <? poll_maxAttempts)%nat; [|reflexivity].
    rewrite IH. symmetry. rewrite IH.
    destruct (pollForSubmissionData_loop fetch id fuel (S attempt) [])
      as [[r l]|]; simpl; [|reflexivity].
    by rewrite <- !app_assoc.
  - destruct (str_eqb (status_msg data) (js "Accepted") && finished data);
      [reflexivity|].
    destruct (finished data); [reflexivity|].
    rewrite IH. symmetry. rewrite IH.
    destruct (pollForSubmissionData_loop fetch id fuel (S attempt) [])
      as [[r l]|]; simpl; [|reflexivity].
    destruct (attempt <? poll_maxAttempts)%nat; by rewrite <- !app_assoc.
Qed.

(** C2 (as amended).  When the page shows a submission identifier and
    the structured source does not resolve within the poll ceiling
    ([pollForSubmissionData] returns [null]), the
    [extractSubmissionStatsFromURL] of part_002 runs no second
    extraction: it throws [Error('Failed to fetch submission data')] to
    its caller and leaves the record as it was. *)
Theorem extractSubmissionStatsFromURL_throws_when_unresolved
    {Payload Problem : Type} (ctx : Capture Payload Problem) (this : Problem)
    (extra : nat) (submissionId : jsstring) (log1 : list event) :
  waitForSubmissionURL (href ctx) (S url_maxAttempts + extra)
  = Some (Some submissionId, log1) ->
  (fst <$> pollForSubmissionData
             (fun attempt => fetchSubmissionData (graphql ctx submissionId attempt))
             submissionId (S url_maxAttempts + extra)) = Some None ->
  exists log,
    extractSubmissionStatsFromURL ctx (S url_maxAttempts + extra) this
    = Some (this, Throw (Error (js "Failed to fetch submission data")), log).
Proof.
  intros Hwait Hpoll.
  assert (Hid : truthy_string submissionId = true).
  { destruct (waitForSubmissionURL_loop_total (href ctx)
                (S url_maxAttempts + extra) 1 [])
      as (r & log & Hrun & _ & _ & Hr);
      [unfold url_maxAttempts; lia | lia |].
    unfold waitForSubmissionURL in Hwait. rewrite Hwait in Hrun.
    injection Hrun as <- _. destruct Hr as (n & _ & _ & Ht & _). exact Ht. }
  unfold extractSubmissionStatsFromURL. rewrite Hwait, Hid.
  rewrite pollForSubmissionData_loop_log.
  unfold pollForSubmissionData in Hpoll.
  destruct (pollForSubmissionData_loop _ submissionId _ 1 [])
    as [[[data|] l]|]; simpl in *; try discriminate.
  eauto.
Qed.

Lemma extractSubmissionStatsFromURL_throws_witness :
  waitForSubmissionURL (href Examples.unreachable_capture) 21
  = Some (Some (js "1774457019"), [ReadLocation]) /\
  exists log,
    extractSubmissionStatsFromURL Examples.unreachable_capture 21 (js "")
    = Some (js "", Throw (Error (js "Failed to fetch submission data")), log).
Proof.
  split; [reflexivity|].
  apply (extractSubmissionStatsFromURL_throws_when_unresolved
           Examples.unreachable_capture (js "") 0 (js "1774457019")
           [ReadLocation]); reflexivity.
Defined.

(** C2 (as stated) fails: with an unreachable structured source the
    call does not return a record, it throws. *)
Lemma extractSubmissionStatsFromURL_no_fallback :
  (fst <$> pollForSubmissionData
             (fun attempt =>
                fetchSubmissionData
                  (graphql Examples.unreachable_capture (js "1774457019") attempt))
             (js "1774457019") 21) = Some None /\
  ~ exists this' log,
      extractSubmissionStatsFromURL Examples.unreachable_capture 21 (js "")
      = Some (this', Normal tt, log).
Proof.
  split; [reflexivity|].
  intros (this' & log & H). vm_compute in H. discriminate.
Qed.

(** When the location never shows an identifier the call throws as
    well. *)
Lemma extractSubmissionStatsFromURL_throws_without_location
    {Payload Problem : Type} (ctx : Capture Payload Problem) (this : Problem)
    (fuel : nat) (log1 : list event) :
  waitForSubmissionURL (href ctx) fuel = Some (None, log1) ->
  extractSubmissionStatsFromURL ctx fuel this
  = Some (this, Throw (Error (js "No submission ID in URL")), log1).
Proof. intros H. unfold extractSubmissionStatsFromURL. by rewrite H. Qed.

(** The copy under [scripts/models] does fall back: when its poll
    returns [null], the record is the one DOM extraction produces. *)
Lemma legacy_extractSubmissionStatsFromURL_falls_back
    {Payload Problem : Type} (ctx : LegacyPoller.Capture Payload Problem)
    (this : Problem) (fuel : nat) (submissionId : jsstring) :
  LegacyPoller.getSubmissionIdFromURL (LegacyPoller.href ctx)
  = Some submissionId ->
  truthy_string submissionId = true ->
  (fst <$> pollForSubmissionData
             (LegacyPoller.fetchSubmissionData ctx submissionId)
             submissionId fuel) = Some None ->
  exists log,
    LegacyPoller.extractSubmissionStatsFromURL ctx fuel this
    = Some (LegacyPoller.extractSubmissionStatsFromDOM ctx this, log).
Proof.
  intros Hid Ht Hpoll. unfold LegacyPoller.extractSubmissionStatsFromURL.
  rewrite Hid, Ht, pollForSubmissionData_loop_log.
  unfold pollForSubmissionData in Hpoll.
  destruct (pollForSubmissionData_loop _ submissionId _ 1 [])
    as [[[data|] l]|]; simpl in *; try discriminate.
  eauto.
Qed.

Lemma legacy_extractSubmissionStatsFromURL_example :
  (fst <$> LegacyPoller.extractSubmissionStatsFromURL
             Examples.legacy_capture 11 (js ""))
  = Some (js "0 ms").
Proof. reflexivity. Qed.

End PollerFacts.

(** * The repository scanner *)

Section ScannerFacts.
Import Background.
Variable env : Env.

Lemma json_array_items body w :
  json_array body w
  = match body with
    | JsonArray items => (Normal items, w)
    | JsonRejected e => (Throw e, w)
    | JsonNotArray => (Throw (TypeError (js "data.filter is not a function")), w)
    end.
Proof. by destruct body. Qed.

Lemma scan_folder_run url folder w :
  scan_folder env url folder w
  = (Normal (folder_files env (requests w) url folder), after_requests 1 w).
Proof.
  unfold scan_folder, try_catch, bind, js_fetch, folder_files, after_requests.
  rewrite Nat.add_1_r.
  destruct (fetch env (requests w) (url ++ name folder)) as [e|ok st body];
    [reflexivity|].
  destruct ok; [|reflexivity].
  rewrite json_array_items. by destruct body.
Qed.

Lemma scan_folders_run url folders :
  forall allProblems w,
    scan_folders env url folders allProblems w
    = (Normal (allProblems ++ scanned env (requests w) url folders),
       after_requests (length folders) w).
Proof.
  induction folders as [|folder rest IH]; intros allProblems w; simpl.
  - unfold ret, after_requests. rewrite app_nil_r, Nat.add_0_r.
    by destruct w.
  - unfold bind. rewrite scan_folder_run, IH.
    f_equal.
    + unfold after_requests; simpl. by rewrite <- app_assoc, Nat.add_1_r.
    + unfold after_requests; simpl. f_equal. lia.
Qed.

Lemma buildBasicGithubUrl_world w : (buildBasicGithubUrl w).2 = w.
Proof.
  unfold buildBasicGithubUrl, bind, storage_get. simpl.
  destruct (parseRepositoryString _ _) as [[[user repo]|]|e]; reflexivity.
Qed.

(** The scanner always returns, and what it returns is [scan_result]. *)
Lemma getAllLeetCodeProblems_run w :
  exists n,
    getAllLeetCodeProblems env w = (Normal (scan_result env w), after_requests n w).
Proof.
  unfold getAllLeetCodeProblems, scan_result, try_catch.
  unfold bind at 1.
  pose proof (buildBasicGithubUrl_world w) as Hw.
  destruct (buildBasicGithubUrl w) as [[url|e] w0]; simpl in Hw; subst w0.
  - unfold bind, js_fetch.
    destruct (fetch env (requests w) url) as [e|ok st body].
    + exists 1%nat. unfold ret, after_requests. by rewrite Nat.add_1_r.
    + destruct ok; simpl.
      * rewrite json_array_items.
        destruct body as [e| |data]; simpl;
          try (exists 1%nat; unfold ret, after_requests;
               by rewrite Nat.add_1_r).
        rewrite scan_folders_run. simpl.
        exists (S (length (List.filter is_dir data))).
        unfold after_requests. simpl. do 2 f_equal. lia.
      * exists 1%nat. unfold ret, after_requests. by rewrite Nat.add_1_r.
  - exists 0%nat. unfold ret, after_requests. rewrite Nat.add_0_r.
    by destruct w.
Qed.

Lemma scanned_lookup url folders :
  forall k i folder p,
    folders !! i = Some folder ->
    In p (folder_files env (k + i) url folder) ->
    In p (scanned env k url folders).
Proof.
  induction folders as [|f rest IH]; intros k i folder p Hi Hp; [done|].
  simpl. apply in_or_app. destruct i as [|i]; simpl in Hi.
  - injection Hi as ->. rewrite Nat.add_0_r in Hp. by left.
  - right. apply (IH (S k) i folder); [done|].
    by replace (S k + i)%nat with (k + S i)%nat by lia.
Qed.

Lemma scanned_origin url folders :
  forall k p,
    In p (scanned env k url folders) ->
    exists i folder,
      folders !! i = Some folder /\ In p (folder_files env (k + i) url folder).
Proof.
  induction folders as [|f rest IH]; intros k p Hp; [done|].
  simpl in Hp. apply in_app_or in Hp as [Hp|Hp].
  - exists 0%nat, f. rewrite Nat.add_0_r. auto.
  - destruct (IH (S k) p Hp) as (i & folder & Hi & Hin).
    exists (S i), folder. split; [done|].
    by replace (k + S i)%nat with (S k + i)%nat by lia.
Qed.

Lemma folder_files_origin k url folder p :
  In p (folder_files env k url folder) ->
  exists st items file,
    fetch env k (url ++ name folder) = Response true st (JsonArray items)
    /\ In file items /\ is_problem_file file = true
    /\ p = to_problem folder file.
Proof.
  unfold folder_files.
  destruct (fetch env k (url ++ name folder)) as [e|[] st [e| |items]];
    try done.
  intros Hp. apply in_map_iff in Hp as (file & <- & Hfile).
  apply filter_In in Hfile as [Hin Hok]. eauto 10.
Qed.

(** C5.  [getAllLeetCodeProblems] never throws.  If the URL cannot be
    built, or the top-level request is rejected, is not [ok], or has no
    JSON array as its body, the result is the empty list.  Otherwise
    every language folder whose own listing arrives contributes all its
    problem files to the result, whatever happens to the requests for
    the other folders. *)
Theorem getAllLeetCodeProblems_never_throws (w : World) :
  exists problems w',
    getAllLeetCodeProblems env w = (Normal problems, w')
    /\ match buildBasicGithubUrl w with
       | (Throw _, _) => problems = []
       | (Normal url, _) =>
           match fetch env (requests w) url with
           | Response true _ (JsonArray data) =>
               forall i folder st items file,
                 List.filter is_dir data !! i = Some folder ->
                 fetch env (S (requests w) + i) (url ++ name folder)
                 = Response true st (JsonArray items) ->
                 In file items ->
                 is_problem_file file = true ->
                 In (to_problem folder file) problems
           | _ => problems = []
           end
       end.
Proof.
  destruct (getAllLeetCodeProblems_run w) as [n Hrun].
  exists (scan_result env w), (after_requests n w). split; [exact Hrun|].
  unfold scan_result.
  destruct (buildBasicGithubUrl w) as [[url|e] w0]; [|reflexivity].
  destruct (fetch env (requests w) url) as [e|[] st [e| |data]];
    try reflexivity.
  intros i folder st' items file Hi Hfetch Hin Hok.
  apply (scanned_lookup url _ (S (requests w)) i folder); [exact Hi|].
  unfold folder_files. rewrite Hfetch.
  apply in_map, filter_In. auto.
Qed.

(** C9.  Every element of the scanner's result comes from an entry of a
    fetched folder listing that is a file and whose name matches
    [^\d{4}\s+.+\..+$]; an entry that is not a file, or whose name does
    not match, produces no element. *)
Theorem getAllLeetCodeProblems_only_problem_files (w : World) :
  exists problems w',
    getAllLeetCodeProblems env w = (Normal problems, w')
    /\ Forall (fun p =>
         matches problem_file_pattern (originalName p) = true
         /\ exists k url st items file,
              fetch env k url = Response true st (JsonArray items)
              /\ In file items
              /\ type file = js "file"
              /\ name file = originalName p
              /\ questionId p = convertGithubToLeetCodeSlug (name file))
         problems.
Proof.
  destruct (getAllLeetCodeProblems_run w) as [n Hrun].
  exists (scan_result env w), (after_requests n w). split; [exact Hrun|].
  apply Forall_forall. intros p Hp. apply list_elem_of_In in Hp.
  unfold scan_result in Hp.
  destruct (buildBasicGithubUrl w) as [[url|e] w0]; [|done].
  destruct (fetch env (requests w) url) as [e|[] st [e| |data]]; try done.
  apply scanned_origin in Hp as (i & folder & _ & Hp).
  apply folder_files_origin in Hp
    as (st' & items & file & Hfetch & Hin & Hok & ->).
  unfold is_problem_file in Hok. apply andb_true_iff in Hok as [Hty Hname].
  apply str_eqb_eq in Hty. simpl. split; [exact Hname|].
  exists (S (requests w) + i)%nat, (url ++ name folder), st', items, file.
  auto.
Qed.

End ScannerFacts.

Lemma getAllLeetCodeProblems_isolates_python_failure :
  (Background.getAllLeetCodeProblems Examples.env_python_down Examples.world).1
  = Normal [ {| Background.originalName := Examples.two_sum_js;
                Background.questionId := js "1";
                Background.language := js "js" |} ].
Proof. reflexivity. Qed.

Lemma getAllLeetCodeProblems_skips_other_entries :
  (Background.getAllLeetCodeProblems Examples.env Examples.world).1
  = Normal [ {| Background.originalName := Examples.two_sum_py;
                Background.questionId := js "1";
                Background.language := js "python" |};
             {| Background.originalName := Examples.two_sum_js;
                Background.questionId := js "1";
                Background.language := js "js" |} ].
Proof. reflexivity. Qed.

(** * Tier counts *)

Section CounterFacts.
Import Background.

Lemma js_increment_bounds x : (x <= js_increment x <= x + 1)%Z.
Proof. unfold js_increment. destruct (x <? 2 ^ 53)%Z; lia. Qed.

Lemma js_increment_cap x : (x <= 2 ^ 53 -> js_increment x <= 2 ^ 53)%Z.
Proof. unfold js_increment. destruct (Z.ltb_spec x (2 ^ 53)); lia. Qed.

Lemma counter_add_bounds k c :
  (easy c <= easy (counter_add k c))%Z /\
  (medium c <= medium (counter_add k c))%Z /\
  (hard c <= hard (counter_add k c))%Z /\
  (total (counter_add k c) <= total c + 1)%Z.
Proof.
  unfold counter_add, total.
  pose proof (js_increment_bounds (easy c)).
  pose proof (js_increment_bounds (medium c)).
  pose proof (js_increment_bounds (hard c)).
  destruct (str_eqb k (js "easy")); [simpl; lia|].
  destruct (str_eqb k (js "medium")); [simpl; lia|].
  destruct (str_eqb k (js "hard")); simpl; lia.
Qed.

Lemma count_one_bounds c difficulty :
  (easy c <= easy (count_one c difficulty))%Z /\
  (medium c <= medium (count_one c difficulty))%Z /\
  (hard c <= hard (count_one c difficulty))%Z /\
  (total (count_one c difficulty)
   <= total c + (if truthy_difficulty difficulty then 1 else 0))%Z.
Proof.
  unfold count_one, truthy_difficulty.
  destruct difficulty as [d|]; [|lia].
  destruct (truthy_string d); [|lia].
  destruct (in_counter (toLowerCase d)); [|lia].
  apply counter_add_bounds.
Qed.

Lemma fold_count_one_bounds difficulties :
  forall c,
    nonneg c ->
    nonneg (fold_left count_one difficulties c) /\
    (total (fold_left count_one difficulties c)
     <= total c
        + Z.of_nat (length (List.filter truthy_difficulty difficulties)))%Z.
Proof.
  induction difficulties as [|d ds IH]; intros c Hc; simpl.
  - split; [exact Hc|lia].
  - pose proof (count_one_bounds c d) as (He & Hm & Hh & Ht).
    destruct (IH (count_one c d)) as [Hn Hb].
    { unfold nonneg in *. lia. }
    split; [exact Hn|].
    destruct (truthy_difficulty d); simpl length; lia.
Qed.

Lemma zero_counter_nonneg : nonneg zero_counter.
Proof. unfold nonneg; simpl; lia. Qed.

Lemma matched_difficulties problems allQuestions :
  (length (List.filter truthy_difficulty (difficulties_of problems allQuestions))
   <= length (List.filter (has_catalog_match allQuestions) problems))%nat.
Proof.
  unfold difficulties_of.
  induction problems as [|p ps IH]; simpl; [lia|].
  unfold has_catalog_match at 1.
  destruct (difficultyMap allQuestions !! questionId p) as [d|]; simpl.
  - destruct (truthy_difficulty d); simpl; lia.
  - exact IH.
Qed.

Lemma updateStats_run difficulties w :
  updateStats difficulties w
  = (Normal tt,
     let s := {| counter := count_all difficulties;
                 isCountingComplete := true;
                 lastUpdate := Some (now w);
                 loading := false |} in
     {| manager := s; storage := storage w;
        sent := sent w ++ [getStats s];
        now := now w; requests := requests w |}).
Proof. reflexivity. Qed.

Lemma incrementCounter_counter difficulty w :
  counter (manager (incrementCounter difficulty w).2) = counter (manager w)
  \/ exists k,
       counter (manager (incrementCounter difficulty w).2)
       = counter_add k (counter (manager w)).
Proof.
  unfold incrementCounter.
  destruct difficulty as [d|]; [|by left].
  destruct (truthy_string d); [|by left].
  destruct (in_counter (toLowerCase d)); [|by left].
  right. by exists (toLowerCase d).
Qed.

(** C6.  The three counters are integers that never go below zero:
    they are zero at start, [updateStats] recomputes them from zero and
    [incrementCounter] adds at most one unit.  Right after a full recount their
    sum is at most the number of difficulties it was given, hence at
    most the number of scanned files whose identifier has a catalog
    entry. *)
Theorem counters_nonnegative_and_bounded :
  nonneg (counter initial_state)
  /\ (forall difficulties w,
        let c := counter (manager (updateStats difficulties w).2) in
        nonneg c
        /\ (total c
            <= Z.of_nat (length (List.filter truthy_difficulty difficulties)))%Z)
  /\ (forall problems allQuestions,
        nonneg (reconcile problems allQuestions)
        /\ (total (reconcile problems allQuestions)
            <= Z.of_nat (length (List.filter (has_catalog_match allQuestions)
                                   problems)))%Z)
  /\ (forall difficulty w,
        let c := counter (manager w) in
        let c' := counter (manager (incrementCounter difficulty w).2) in
        nonneg c ->
        nonneg c' /\ (total c <= total c' <= total c + 1)%Z).
Proof.
  split; [apply zero_counter_nonneg|].
  split; [|split].
  - intros difficulties w. rewrite updateStats_run. simpl.
    destruct (fold_count_one_bounds difficulties zero_counter
                zero_counter_nonneg) as [Hn Hb].
    split; [exact Hn|]. unfold count_all.
    change (total zero_counter) with 0%Z in Hb. lia.
  - intros problems allQuestions. unfold reconcile, count_all.
    destruct (fold_count_one_bounds (difficulties_of problems allQuestions)
                zero_counter zero_counter_nonneg) as [Hn Hb].
    split; [exact Hn|].
    pose proof (matched_difficulties problems allQuestions).
    change (total zero_counter) with 0%Z in Hb. lia.
  - intros difficulty w c c' Hw. subst c c'.
    destruct (incrementCounter_counter difficulty w) as [->|[k ->]];
      [split; [exact Hw|lia]|].
    pose proof (counter_add_bounds k (counter (manager w))) as (He & Hm & Hh & Ht).
    unfold nonneg, total in *. lia.
Qed.

Lemma counters_nonnegative_witness :
  nonneg (counter (manager Examples.world))
  /\ nonneg (counter (manager
       (incrementCounter (Some (js "Easy")) Examples.world).2))
  /\ easy (counter (manager
       (incrementCounter (Some (js "Easy")) Examples.world).2)) = 4%Z.
Proof.
  assert (H : nonneg (counter (manager Examples.world)))
    by (unfold nonneg; simpl; lia).
  split; [exact H|]. split; [|reflexivity].
  destruct counters_nonnegative_and_bounded as (_ & _ & _ & Hinc).
  exact (proj1 (Hinc (Some (js "Easy")) Examples.world H)).
Defined.

(** An increment between two syncs is not bounded by the last scan. *)
Lemma incrementCounter_exceeds_last_scan :
  let w1 := (updateStats [Some (js "Easy")] Examples.world).2 in
  let w2 := (incrementCounter (Some (js "Easy")) w1).2 in
  total (counter (manager w1)) = 1%Z /\ total (counter (manager w2)) = 2%Z.
Proof. split; reflexivity. Qed.

End CounterFacts.

(** * The reconciliation and the controller *)

Section ControllerFacts.
Import Background.

(** ** Reconciliation as a function of files and catalog *)

Lemma difficulties_of_app ps qs allQuestions :
  difficulties_of (ps ++ qs) allQuestions
  = difficulties_of ps allQuestions ++ difficulties_of qs allQuestions.
Proof. unfold difficulties_of. apply map_app. Qed.

(** Every file is looked up and counted on its own: appending a file
    to the scan applies one more counting step to the counts so far. *)
Lemma reconcile_snoc problems problem allQuestions :
  reconcile (problems ++ [problem]) allQuestions
  = count_one (reconcile problems allQuestions) (tier_of allQuestions problem).
Proof.
  unfold reconcile, count_all. rewrite difficulties_of_app, fold_left_app.
  reflexivity.
Qed.

Lemma str_eqb_refl s : str_eqb s s = true.
Proof. by apply str_eqb_eq. Qed.

Lemma str_eqb_neq s t : s <> t -> str_eqb s t = false.
Proof.
  intros H. destruct (str_eqb s t) eqn:E; [|reflexivity].
  apply str_eqb_eq in E. contradiction.
Qed.

Lemma toLowerCase_truthy d : truthy_string (toLowerCase d) = truthy_string d.
Proof. by destruct d. Qed.

(** A counting step moves the counter named by the lower-cased
    difficulty and no other. *)
Lemma count_one_fields c difficulty :
  easy (count_one c difficulty)
  = (if counts_as (js "easy") difficulty then js_increment (easy c) else easy c)
  /\ medium (count_one c difficulty)
     = (if counts_as (js "medium") difficulty then js_increment (medium c)
        else medium c)
  /\ hard (count_one c difficulty)
     = (if counts_as (js "hard") difficulty then js_increment (hard c)
        else hard c).
Proof.
  unfold count_one, counts_as. destruct difficulty as [d|]; [|auto].
  destruct (truthy_string d) eqn:Ht.
  - unfold in_counter, counter_add.
    destruct (str_eqb (toLowerCase d) (js "easy")) eqn:He.
    + apply str_eqb_eq in He. rewrite He. auto.
    + destruct (str_eqb (toLowerCase d) (js "medium")) eqn:Hm.
      * apply str_eqb_eq in Hm. rewrite Hm. auto.
      * destruct (str_eqb (toLowerCase d) (js "hard")) eqn:Hh; simpl.
        -- auto.
        -- destruct (str_eqb (toLowerCase d) (js "constructor")
                     || str_eqb (toLowerCase d) (js "__proto__")); auto.
  - rewrite <- toLowerCase_truthy in Ht.
    destruct (toLowerCase d); [auto|discriminate].
Qed.

Lemma cap_step x n :
  (0 <= x <= 2 ^ 53)%Z ->
  Z.min (2 ^ 53) (js_increment x + Z.of_nat n)
  = Z.min (2 ^ 53) (x + Z.of_nat (S n)).
Proof. unfold js_increment. destruct (Z.ltb_spec x (2 ^ 53)); lia. Qed.

Lemma fold_count_one_exact difficulties :
  forall c,
    (0 <= easy c <= 2 ^ 53)%Z -> (0 <= medium c <= 2 ^ 53)%Z ->
    (0 <= hard c <= 2 ^ 53)%Z ->
    let c' := fold_left count_one difficulties c in
    easy c' = Z.min (2 ^ 53)
                (easy c + Z.of_nat (length (List.filter (counts_as (js "easy"))
                                              difficulties)))
    /\ medium c' = Z.min (2 ^ 53)
                (medium c + Z.of_nat (length (List.filter (counts_as (js "medium"))
                                                difficulties)))
    /\ hard c' = Z.min (2 ^ 53)
                (hard c + Z.of_nat (length (List.filter (counts_as (js "hard"))
                                              difficulties))).
Proof.
  induction difficulties as [|d ds IH]; intros c He Hm Hh; simpl.
  - rewrite !Z.add_0_r. lia.
  - destruct (count_one_fields c d) as (Fe & Fm & Fh).
    pose proof (js_increment_bounds (easy c)).
    pose proof (js_increment_bounds (medium c)).
    pose proof (js_increment_bounds (hard c)).
    pose proof (js_increment_cap (easy c)).
    pose proof (js_increment_cap (medium c)).
    pose proof (js_increment_cap (hard c)).
    destruct (IH (count_one c d)) as (Ie & Im & Ih).
    { rewrite Fe. destruct (counts_as (js "easy") d); lia. }
    { rewrite Fm. destruct (counts_as (js "medium") d); lia. }
    { rewrite Fh. destruct (counts_as (js "hard") d); lia. }
    rewrite Ie, Im, Ih, Fe, Fm, Fh.
    destruct (counts_as (js "easy") d), (counts_as (js "medium") d),
      (counts_as (js "hard") d); simpl length;
      rewrite ?cap_step by lia; auto.
Qed.

Lemma filter_map_length {A B} (f : A -> B) (p : B -> bool) (l : list A) :
  length (List.filter p (map f l))
  = length (List.filter (fun x => p (f x)) l).
Proof.
  induction l as [|x l IH]; [reflexivity|]. simpl.
  destruct (p (f x)); simpl; by rewrite IH.
Qed.

(** The reconciliation counts files: each counter is the number of
    scanned files whose catalog difficulty lower-cases to its name (up
    to the largest exact integer of a double), so a problem present in
    two language folders is counted twice. *)
Lemma reconcile_counts_files problems allQuestions :
  let files_of k :=
    Z.of_nat (length (List.filter
                        (fun p => counts_as k (tier_of allQuestions p))
                        problems)) in
  easy (reconcile problems allQuestions)
  = Z.min (2 ^ 53) (files_of (js "easy"))
  /\ medium (reconcile problems allQuestions)
     = Z.min (2 ^ 53) (files_of (js "medium"))
  /\ hard (reconcile problems allQuestions)
     = Z.min (2 ^ 53) (files_of (js "hard")).
Proof.
  intros files_of. unfold reconcile, count_all, files_of.
  destruct (fold_count_one_exact (difficulties_of problems allQuestions)
              zero_counter) as (He & Hm & Hh); try (simpl; lia).
  unfold difficulties_of in *. rewrite !filter_map_length in *.
  simpl in *. auto.
Qed.

Lemma reconcile_three_files :
  reconcile Examples.three_files Examples.catalog
  = {| easy := 1; medium := 1; hard := 0 |}.
Proof. reflexivity. Qed.

Lemma reconcile_two_folders :
  reconcile
    [ {| originalName := Examples.two_sum_py; questionId := js "1";
         language := js "python" |};
      {| originalName := Examples.two_sum_js; questionId := js "1";
         language := js "js" |} ]
    Examples.catalog
  = {| easy := 2; medium := 0; hard := 0 |}.
Proof. reflexivity. Qed.

(** ** [initCounter] *)

Lemma call_on_controller_getAllLeetCodeProblems {A} (body : M A) :
  call_on_controller "getAllLeetCodeProblems" body
  = throw (TypeError (js "this.getAllLeetCodeProblems is not a function")).
Proof. reflexivity. Qed.

Lemma call_on_githubService_would_resolve :
  existsb (String.eqb "getAllLeetCodeProblems") GitHubService_members = true.
Proof. reflexivity. Qed.

Lemma show_completed_run w :
  show_completed w
  = (Normal tt,
     let s := {| counter := counter (manager w);
                 isCountingComplete := true;
                 lastUpdate := lastUpdate (manager w);
                 loading := false |} in
     {| manager := s; storage := storage w;
        sent := sent w ++ [getStats s];
        now := now w; requests := requests w |}).
Proof. reflexivity. Qed.

Lemma show_completed_completed w : completed (show_completed w).2.
Proof. rewrite show_completed_run. unfold completed. simpl. eauto. Qed.

Lemma updateStats_completed difficulties w :
  completed (updateStats difficulties w).2.
Proof. rewrite updateStats_run. unfold completed. simpl. eauto. Qed.

(** C10.  [initCounter] never throws, whatever storage holds, whatever
    the scanner and the catalog do (returning or throwing); on every
    path, in particular on every path that ends without a recount, the
    state is left with [loading = false] and [isCountingComplete = true]
    and that state is the last one broadcast. *)
Theorem initCounter_always_completes (env : Env) (w : World) :
  (forall scan : M (list ProblemFile),
     exists w', initCounter_with env scan w = (Normal tt, w') /\ completed w')
  /\ (exists w', initCounter env w = (Normal tt, w') /\ completed w').
Proof.
  assert (Hany : forall scan : M (list ProblemFile),
    exists w', initCounter_with env scan w = (Normal tt, w') /\ completed w').
  { intros scan. unfold initCounter_with, try_catch.
    unfold bind at 1 2 3. unfold storage_get at 1 2 3. cbv beta iota.
    match goal with |- context [if ?b then _ else _] => destruct b end.
    - (* not fully configured: the early exit *)
      pose proof (show_completed_completed w) as H.
      rewrite show_completed_run in *. eauto.
    - (* configured: reset, then the two fetches *)
      unfold bind at 1. unfold reset at 1, set_manager at 1. cbv beta iota.
      unfold bind at 1.
      destruct (scan _) as [[problems|e] w1].
      + unfold bind at 1.
        destruct (fetchAllQuestionsDifficulty env) as [qs|e].
        * unfold ret at 1. cbv beta iota.
          pose proof (updateStats_completed (difficulties_of problems qs) w1)
            as H.
          rewrite updateStats_run in *. eauto.
        * unfold throw at 1. cbv beta iota.
          pose proof (show_completed_completed w1) as H.
          rewrite show_completed_run in *. eauto.
      + pose proof (show_completed_completed w1) as H.
        rewrite show_completed_run in *. eauto. }
  split; [exact Hany|apply Hany].
Qed.

(** ** The recount that never happens *)

Lemma initCounter_run_configured (env : Env) (w : World) :
  configured w = true ->
  initCounter env w
  = (Normal tt,
     let s := {| counter := zero_counter;
                 isCountingComplete := true;
                 lastUpdate := None;
                 loading := false |} in
     {| manager := s; storage := storage w;
        sent := sent w ++ [getStats s];
        now := now w; requests := requests w |}).
Proof.
  unfold configured. intros H.
  apply andb_true_iff in H as [H Hrepo]. apply andb_true_iff in H as [Htok Huser].
  unfold initCounter, initCounter_with, try_catch.
  rewrite call_on_controller_getAllLeetCodeProblems.
  unfold bind at 1 2 3. unfold storage_get at 1 2 3. cbv beta iota.
  rewrite Htok, Huser, Hrepo. reflexivity.
Qed.

Lemma initCounter_run_unconfigured (env : Env) (w : World) :
  configured w = false ->
  initCounter env w = show_completed w.
Proof.
  unfold configured. intros H.
  unfold initCounter, initCounter_with, try_catch.
  unfold bind at 1 2 3. unfold storage_get at 1 2 3. cbv beta iota.
  rewrite <- !negb_andb, H. cbv beta iota.
  rewrite show_completed_run. reflexivity.
Qed.

(** Whatever the repository and the catalog hold, [initCounter] ends
    with all three counters at zero or untouched: the call of the
    scanner on the controller throws before any request is made. *)
Lemma initCounter_never_counts (env : Env) (w : World) :
  let w' := (initCounter env w).2 in
  requests w' = requests w
  /\ (counter (manager w') = zero_counter
      \/ counter (manager w') = counter (manager w)).
Proof.
  destruct (configured w) eqn:Hc.
  - rewrite initCounter_run_configured by exact Hc. simpl. auto.
  - rewrite initCounter_run_unconfigured by exact Hc.
    rewrite show_completed_run. simpl. auto.
Qed.

(** C4 at the scenario of the specification.  The repository holds
    ["0001 two-sum.py"] under [python] and ["0001 two-sum.js"] under
    [js], the catalog says problem 1 is Easy.  The scanner finds both
    files and the reconciliation of its result counts two easy files,
    and so does [initCounter] when the scanner is reached through
    [githubService]; [initCounter] as written ends with easy = 0. *)
Theorem initCounter_duplicate_folders :
  configured Examples.world = true
  /\ easy (reconcile (scan_result Examples.env Examples.world) Examples.catalog)
     = 2%Z
  /\ counter (manager (initCounter_on_githubService Examples.env Examples.world).2)
     = {| easy := 2; medium := 0; hard := 0 |}
  /\ (initCounter Examples.env Examples.world).1 = Normal tt
  /\ counter (manager (initCounter Examples.env Examples.world).2)
     = {| easy := 0; medium := 0; hard := 0 |}.
Proof. repeat split; reflexivity. Qed.

(** ** [startSync] *)

Lemma status_keys_distinct :
  status_key <> in_progress_key /\ status_key <> message_key
  /\ status_key <> date_key /\ in_progress_key <> message_key
  /\ in_progress_key <> date_key /\ message_key <> date_key.
Proof. repeat split; intros H; vm_compute in H; discriminate H. Qed.

Lemma sync_status_stored (env : Env) status msg t w :
  let w' := (storage_set (sync_status_record env status msg t) w).2 in
  manager w' = manager w /\ sent w' = sent w /\ requests w' = requests w
  /\ now w' = now w
  /\ storage w' !! status_key = Some (VString status)
  /\ storage w' !! in_progress_key = Some (VBool false)
  /\ storage w' !! message_key = Some (VString msg)
  /\ storage w' !! date_key = Some (VString (toISOString env t))
  /\ (forall k, k <> status_key -> k <> in_progress_key ->
                k <> message_key -> k <> date_key ->
                storage w' !! k = storage w !! k).
Proof.
  destruct status_keys_distinct as (H1 & H2 & H3 & H4 & H5 & H6).
  intros w'. subst w'.
  unfold storage_set, sync_status_record. cbn [snd fold_left fst storage].
  fold status_key in_progress_key message_key date_key.
  do 4 (split; [reflexivity|]).
  do 4 (split;
        [rewrite ?lookup_insert_ne by congruence; apply lookup_insert_eq|]).
  intros k K1 K2 K3 K4. by rewrite ?lookup_insert_ne by congruence.
Qed.

Lemma startSync_reported_failure (env : Env) w result st :
  syncService_startSync env (storage w) = (Normal result, st) ->
  success result = false ->
  startSync env w
  = (Normal result,
     (storage_set
        (sync_status_record env (js "failed") (message result) (now w))
        {| manager := manager w; storage := st; sent := sent w;
           now := now w; requests := requests w |}).2).
Proof.
  intros Hsync Hs.
  unfold startSync, try_catch. unfold bind at 1. unfold run_sync at 1.
  rewrite Hsync. cbv beta iota.
  unfold bind, new_Date, ret, storage_set. cbv beta iota. cbn [now].
  rewrite Hs. reflexivity.
Qed.

Lemma startSync_thrown_failure (env : Env) w error st :
  syncService_startSync env (storage w) = (Throw error, st) ->
  startSync env w
  = (Normal {| success := false;
               message := js "Error during synchronization: "
                          ++ error_message error |},
     (storage_set
        (sync_status_record env (js "failed") (error_message error) (now w))
        {| manager := manager w; storage := st; sent := sent w;
           now := now w; requests := requests w |}).2).
Proof.
  intros Hsync.
  unfold startSync, try_catch. unfold bind at 1. unfold run_sync at 1.
  rewrite Hsync. cbv beta iota.
  unfold bind, new_Date, ret, storage_set. cbv beta iota. cbn [now].
  reflexivity.
Qed.

(** C7.  When the sync run fails, because the sync service reports
    [success: false] or because it throws, [startSync] leaves the state
    manager as it was (same counters, nothing broadcast, no request
    made: no recount is started) and writes the status record:
    status [failed], in-progress [false], the message of the failure and
    the date of the run.  Every other key is as the sync service left
    it. *)
Theorem startSync_failure_keeps_counts (env : Env) (w : World)
    (failure : jsstring) :
  sync_failure (syncService_startSync env (storage w)).1 = Some failure ->
  let w' := (startSync env w).2 in
  manager w' = manager w
  /\ sent w' = sent w
  /\ requests w' = requests w
  /\ storage w' !! status_key = Some (VString (js "failed"))
  /\ storage w' !! in_progress_key = Some (VBool false)
  /\ storage w' !! message_key = Some (VString failure)
  /\ storage w' !! date_key = Some (VString (toISOString env (now w)))
  /\ (forall k, k <> status_key -> k <> in_progress_key ->
                k <> message_key -> k <> date_key ->
                storage w' !! k
                = (syncService_startSync env (storage w)).2 !! k)
  /\ exists result, (startSync env w).1 = Normal result
                    /\ success result = false.
Proof.
  intros Hfail w'. subst w'.
  destruct (syncService_startSync env (storage w)) as [[result|error] st] eqn:Hsync;
    simpl in Hfail.
  - destruct (success result) eqn:Hs; [discriminate|].
    injection Hfail as <-.
    rewrite (startSync_reported_failure env w result st Hsync Hs).
    cbn [fst snd].
    destruct (sync_status_stored env (js "failed") (message result) (now w)
                {| manager := manager w; storage := st; sent := sent w;
                   now := now w; requests := requests w |})
      as (Hm & Hsent & Hreq & Hnow & K1 & K2 & K3 & K4 & Krest).
    repeat split; try assumption. eauto.
  - injection Hfail as <-.
    rewrite (startSync_thrown_failure env w error st Hsync).
    cbn [fst snd].
    destruct (sync_status_stored env (js "failed") (error_message error) (now w)
                {| manager := manager w; storage := st; sent := sent w;
                   now := now w; requests := requests w |})
      as (Hm & Hsent & Hreq & Hnow & K1 & K2 & K3 & K4 & Krest).
    repeat split; try assumption. eauto.
Qed.

Lemma startSync_failure_witness :
  sync_failure
    (syncService_startSync Examples.env (storage Examples.world)).1
  = Some (js "No solved problems found")
  /\ counter (manager (startSync Examples.env Examples.world).2)
     = {| easy := 3; medium := 2; hard := 1 |}
  /\ storage (startSync Examples.env Examples.world).2 !! status_key
     = Some (VString (js "failed"))
  /\ storage (startSync Examples.env Examples.world).2 !! in_progress_key
     = Some (VBool false).
Proof.
  assert (H : sync_failure
                (syncService_startSync Examples.env (storage Examples.world)).1
              = Some (js "No solved problems found")) by reflexivity.
  split; [exact H|].
  destruct (startSync_failure_keeps_counts Examples.env Examples.world _ H)
    as (Hm & _ & _ & K1 & K2 & _).
  split; [by rewrite Hm|]. split; [exact K1|exact K2].
Defined.

End ControllerFacts.

(** * The theorems at the concrete inputs *)

Lemma waitForSubmissionURL_bounded_witness :
  exists r log,
    Poller.waitForSubmissionURL Examples.problem_page 21 = Some (r, log)
    /\ (Poller.location_reads log <= 20)%nat
    /\ (Poller.slept log <= 9500)%Z.
Proof.
  destruct (waitForSubmissionURL_bounded Examples.problem_page 0)
    as (r & log & Hrun & Hreads & Hslept & _).
  exists r, log. split; [exact Hrun|]. split; [exact Hreads|exact Hslept].
Defined.

Lemma getAllLeetCodeProblems_never_throws_witness :
  exists problems w',
    Background.getAllLeetCodeProblems Examples.env_python_down Examples.world
    = (Normal problems, w')
    /\ In {| Background.originalName := Examples.two_sum_js;
             Background.questionId := js "1";
             Background.language := js "js" |} problems.
Proof.
  destruct (getAllLeetCodeProblems_never_throws Examples.env_python_down
              Examples.world) as (problems & w' & Hrun & Hiso).
  exists problems, w'. split; [exact Hrun|].
  vm_compute in Hiso.
  exact (Hiso 1%nat {| Background.type := js "dir"; Background.name := js "js" |}
           200%Z Examples.js_listing
           {| Background.type := js "file"; Background.name := Examples.two_sum_js |}
           eq_refl eq_refl (or_introl eq_refl) eq_refl).
Defined.

Lemma getAllLeetCodeProblems_only_problem_files_witness :
  exists problems w',
    Background.getAllLeetCodeProblems Examples.env Examples.world
    = (Normal problems, w')
    /\ Forall (fun p =>
         matches problem_file_pattern (Background.originalName p) = true)
         problems.
Proof.
  destruct (getAllLeetCodeProblems_only_problem_files Examples.env
              Examples.world) as (problems & w' & Hrun & Hall).
  exists problems, w'. split; [exact Hrun|].
  eapply Forall_impl; [exact Hall|]. intros p [Hp _]. exact Hp.
Defined.

Lemma initCounter_always_completes_witness :
  exists w',
    Background.initCounter Examples.env Examples.world = (Normal tt, w')
    /\ Background.completed w'.
Proof.
  exact (proj2 (initCounter_always_completes Examples.env Examples.world)).
Defined.

(** * Repository coordinates *)

Section RepositoryFacts.
Import Background Messages.

Lemma free_of_cons c d s :
  free_of c (d :: s) = negb (d =? c) && free_of c s.
Proof. reflexivity. Qed.

Lemma split_nonempty sep s : split sep s <> [].
Proof.
  destruct s as [|c s]; simpl; [done|].
  destruct (c =? sep); [done|]. by destruct (split sep s).
Qed.

Lemma split_free sep s : free_of sep s = true -> split sep s = [s].
Proof.
  induction s as [|c s IH]; [reflexivity|].
  rewrite free_of_cons. intros [Hc Hs]%andb_true_iff.
  apply negb_true_iff in Hc. simpl. rewrite Hc, (IH Hs). reflexivity.
Qed.

Lemma split_app_sep sep s t :
  free_of sep s = true -> split sep (s ++ sep :: t) = s :: split sep t.
Proof.
  induction s as [|c s IH]; simpl.
  - intros _. by rewrite N.eqb_refl.
  - intros [Hc Hs]%andb_true_iff. apply negb_true_iff in Hc.
    rewrite Hc, (IH Hs). reflexivity.
Qed.

Lemma includes_app_sep c s t : includes c (s ++ c :: t) = true.
Proof.
  unfold includes. rewrite existsb_app. simpl. rewrite N.eqb_refl.
  by rewrite orb_true_r.
Qed.

Lemma includes_free c s : free_of c s = true -> includes c s = false.
Proof.
  unfold includes, free_of. induction s as [|d s IH]; [reflexivity|].
  simpl. intros [Hd Hs]%andb_true_iff. apply negb_true_iff in Hd.
  rewrite Hd. auto.
Qed.

Lemma truthy_string_app_cons s c t : truthy_string (s ++ c :: t) = true.
Proof. by destruct s. Qed.

Lemma parseRepositoryString_slash owner tail fallback :
  free_of 47 owner = true ->
  parseRepositoryString (VString (owner ++ 47 :: tail)) fallback
  = Normal (Some (VString (trim owner), trim (nth 0 (split 47 tail) []))).
Proof.
  intros Howner. unfold parseRepositoryString.
  simpl truthy. rewrite truthy_string_app_cons. cbn [negb].
  by rewrite includes_app_sep, (split_app_sep 47 owner tail Howner).
Qed.

Lemma parseRepositoryString_plain name fallback :
  free_of 47 name = true -> truthy_string name = true ->
  parseRepositoryString (VString name) fallback
  = Normal (Some (fallback, trim name)).
Proof.
  intros Hname Ht. unfold parseRepositoryString.
  simpl truthy. rewrite Ht. cbn [negb].
  by rewrite (includes_free 47 name Hname).
Qed.

(** X1.  [parseRepositoryString] reads ["owner/name"] as the trimmed
    owner and the trimmed name, and ignores whatever follows a second
    slash; a string without a slash is the name of a repository of the
    fallback user; an empty or missing value gives [null]. *)
Theorem parseRepositoryString_owner_and_name
    (owner name rest : jsstring) (fallback : JsValue) :
  free_of 47 owner = true ->
  free_of 47 name = true ->
  parseRepositoryString (VString (owner ++ 47 :: name)) fallback
  = Normal (Some (VString (trim owner), trim name))
  /\ parseRepositoryString (VString (owner ++ 47 :: name ++ 47 :: rest)) fallback
     = Normal (Some (VString (trim owner), trim name))
  /\ (truthy_string name = true ->
      parseRepositoryString (VString name) fallback
      = Normal (Some (fallback, trim name)))
  /\ parseRepositoryString (VString []) fallback = Normal None
  /\ parseRepositoryString VUndefined fallback = Normal None.
Proof.
  intros Howner Hname.
  split; [|split; [|split; [|split; reflexivity]]].
  - rewrite parseRepositoryString_slash by exact Howner.
    by rewrite (split_free 47 name Hname).
  - rewrite parseRepositoryString_slash by exact Howner.
    by rewrite (split_app_sep 47 name rest Hname).
  - intros Ht. by apply parseRepositoryString_plain.
Qed.

Lemma parseRepositoryString_owner_and_name_witness :
  free_of 47 (js "alice") = true /\ free_of 47 (js " leetcode ") = true
  /\ parseRepositoryString (VString (js "alice/ leetcode /tree/main")) VUndefined
     = Normal (Some (VString (js "alice"), js "leetcode")).
Proof.
  split; [reflexivity|]. split; [reflexivity|].
  exact (proj1 (proj2 (parseRepositoryString_owner_and_name
                         (js "alice") (js " leetcode ") (js "tree/main")
                         VUndefined eq_refl eq_refl))).
Defined.

Lemma buildBasicGithubUrl_result w :
  (buildBasicGithubUrl w).1
  = match parseRepositoryString (read w repo_key) (read w username_key) with
    | Throw e => Throw e
    | Normal None => Throw (Error (js "Invalid repository configuration"))
    | Normal (Some (user, repositoryName)) =>
        Normal (REPOSITORY_URL ++ ToString user ++ js "/" ++ repositoryName
                ++ js "/contents/")
    end.
Proof.
  unfold buildBasicGithubUrl, bind, storage_get, read. cbv beta iota.
  fold repo_key username_key.
  by destruct (parseRepositoryString _ _) as [[[user repo]|]|e].
Qed.

(** X2.  [buildBasicGithubUrl] throws [Invalid repository configuration]
    exactly when the stored repository is falsy, and never changes the
    world.  The two ways of storing the coordinates give the same URL:
    ["owner/name"] under the repository key, or [name] there with
    [owner] as the stored user name. *)
Theorem buildBasicGithubUrl_coordinates (w : World) :
  (buildBasicGithubUrl w).2 = w
  /\ ((buildBasicGithubUrl w).1
      = Throw (Error (js "Invalid repository configuration"))
      <-> truthy (read w repo_key) = false)
  /\ (forall owner name,
        free_of 47 owner = true -> free_of 47 name = true ->
        truthy_string name = true -> trim owner = owner ->
        (read w repo_key = VString (owner ++ 47 :: name)
         \/ (read w repo_key = VString name
             /\ read w username_key = VString owner)) ->
        (buildBasicGithubUrl w).1
        = Normal (REPOSITORY_URL ++ owner ++ js "/" ++ trim name
                  ++ js "/contents/")).
Proof.
  split; [apply buildBasicGithubUrl_world|].
  rewrite buildBasicGithubUrl_result. split.
  - unfold parseRepositoryString.
    destruct (read w repo_key) as [| |b|z|s]; simpl truthy; cbn [negb].
    + done.
    + done.
    + destruct b; simpl; split; intros; done.
    + destruct (z =? 0)%Z; simpl; split; intros; done.
    + destruct (truthy_string s); cbn [negb]; [|done].
      destruct (includes 47 s); split; intros; done.
  - intros owner name Howner Hname Ht Htrim [Hrepo|[Hrepo Huser]].
    + rewrite Hrepo, parseRepositoryString_slash by exact Howner.
      rewrite (split_free 47 name Hname). simpl ToString. by rewrite Htrim.
    + rewrite Hrepo, Huser, parseRepositoryString_plain by assumption.
      reflexivity.
Qed.

Lemma buildBasicGithubUrl_coordinates_witness :
  (buildBasicGithubUrl Examples.world).1 = Normal Examples.contents_url.
Proof.
  destruct (buildBasicGithubUrl_coordinates Examples.world) as (_ & _ & H).
  apply (H (js "alice") (js "leetcode")); try reflexivity.
  right. split; reflexivity.
Defined.

End RepositoryFacts.

(** * The catalog and the counters *)

Section CatalogFacts.
Import Background Messages.

Lemma fold_insert_lookup allQuestions :
  forall (m : gmap jsstring (option jsstring)) id,
    fold_left (fun m q => <[q_questionId q := q_difficulty q]> m)
      allQuestions m !! id
    = match last_entry id allQuestions with
      | Some d => Some d
      | None => m !! id
      end.
Proof.
  induction allQuestions as [|q rest IH]; intros m id; simpl; [done|].
  rewrite IH. destruct (last_entry id rest) as [d|]; [done|].
  destruct (str_eqb (q_questionId q) id) eqn:E.
  - apply str_eqb_eq in E. subst id. apply lookup_insert_eq.
  - apply lookup_insert_ne. intros Heq. subst id.
    by rewrite str_eqb_refl in E.
Qed.

Lemma last_entry_app id qs qs' :
  last_entry id (qs ++ qs')
  = match last_entry id qs' with
    | Some d => Some d
    | None => last_entry id qs
    end.
Proof.
  induction qs as [|q qs IH]; simpl.
  - by destruct (last_entry id qs').
  - rewrite IH. by destruct (last_entry id qs').
Qed.

(** X3.  The difficulty map built from the catalog answers with the
    last catalog entry for an identifier: a later entry replaces an
    earlier one with the same identifier, and an identifier the catalog
    does not list has no entry. *)
Theorem difficultyMap_last_entry (allQuestions : list Question) (id : jsstring) :
  difficultyMap allQuestions !! id = last_entry id allQuestions
  /\ (forall q, difficultyMap (allQuestions ++ [q]) !! q_questionId q
                = Some (q_difficulty q))
  /\ (Forall (fun q => q_questionId q <> id) allQuestions ->
      difficultyMap allQuestions !! id = None).
Proof.
  assert (Hlookup : forall qs i, difficultyMap qs !! i = last_entry i qs).
  { intros qs i. unfold difficultyMap. rewrite fold_insert_lookup.
    by destruct (last_entry i qs). }
  split; [apply Hlookup|]. split.
  - intros q. rewrite Hlookup, last_entry_app. simpl.
    by rewrite str_eqb_refl.
  - intros Hall. rewrite Hlookup.
    induction Hall as [|q qs Hq _ IH]; simpl; [done|].
    rewrite IH. by rewrite str_eqb_neq.
Qed.

Lemma difficultyMap_last_entry_witness :
  Forall (fun q => q_questionId q <> js "99") Examples.catalog
  /\ difficultyMap Examples.catalog !! js "99" = None.
Proof.
  assert (H : Forall (fun q => q_questionId q <> js "99") Examples.catalog).
  { repeat constructor; intros E; vm_compute in E; discriminate E. }
  split; [exact H|].
  exact (proj2 (proj2 (difficultyMap_last_entry Examples.catalog (js "99"))) H).
Defined.

Lemma counter_eq c c' :
  easy c = easy c' -> medium c = medium c' -> hard c = hard c' -> c = c'.
Proof. destruct c, c'; simpl; intros -> -> ->; reflexivity. Qed.

Lemma filter_length_Permutation {A} (p : A -> bool) (l l' : list A) :
  Permutation l l' -> length (List.filter p l) = length (List.filter p l').
Proof.
  induction 1 as [|x l l' _ IH|x y l|l l' l'' _ IH1 _ IH2]; simpl.
  - reflexivity.
  - destruct (p x); simpl; by rewrite IH.
  - destruct (p x), (p y); reflexivity.
  - by rewrite IH1.
Qed.

(** X4.  The counts do not depend on the order in which the scanner
    lists the files. *)
Theorem reconcile_order_independent
    (problems problems' : list ProblemFile) (allQuestions : list Question) :
  Permutation problems problems' ->
  reconcile problems allQuestions = reconcile problems' allQuestions.
Proof.
  intros Hperm.
  destruct (reconcile_counts_files problems allQuestions) as (He & Hm & Hh).
  destruct (reconcile_counts_files problems' allQuestions) as (He' & Hm' & Hh').
  cbv zeta in *.
  apply counter_eq.
  - rewrite He, He'. by rewrite (filter_length_Permutation _ _ _ Hperm).
  - rewrite Hm, Hm'. by rewrite (filter_length_Permutation _ _ _ Hperm).
  - rewrite Hh, Hh'. by rewrite (filter_length_Permutation _ _ _ Hperm).
Qed.

Lemma reconcile_order_independent_witness :
  Permutation Examples.three_files (rev Examples.three_files)
  /\ reconcile (rev Examples.three_files) Examples.catalog
     = {| easy := 1; medium := 1; hard := 0 |}.
Proof.
  assert (H : Permutation Examples.three_files (rev Examples.three_files))
    by apply Permutation_rev.
  split; [exact H|].
  rewrite <- (reconcile_order_independent _ _ Examples.catalog H).
  reflexivity.
Defined.

Lemma count_one_not_tier c d :
  is_tier_name d = false -> count_one c (Some d) = c.
Proof.
  unfold is_tier_name, count_one, counter_add.
  intros H. apply orb_false_iff in H as [H Hh].
  apply orb_false_iff in H as [He Hm].
  destruct (truthy_string d); [|reflexivity].
  destruct (in_counter (toLowerCase d)); [|reflexivity].
  by rewrite He, Hm, Hh.
Qed.

Lemma count_one_uncounted allQuestions p c :
  counted allQuestions p = false ->
  count_one c (tier_of allQuestions p) = c.
Proof.
  unfold counted. destruct (tier_of allQuestions p) as [d|]; [|reflexivity].
  apply count_one_not_tier.
Qed.

(** X5.  Only files whose catalog difficulty is one of the three tier
    names (in any mix of cases) are counted: every other file, with no
    catalog entry or with another difficulty, can be taken out of the
    scan without changing any counter. *)
Theorem reconcile_ignores_uncounted
    (problems : list ProblemFile) (allQuestions : list Question) :
  reconcile (List.filter (counted allQuestions) problems) allQuestions
  = reconcile problems allQuestions.
Proof.
  unfold reconcile, count_all, difficulties_of.
  change (fun problem : ProblemFile =>
            match difficultyMap allQuestions !! questionId problem with
            | Some d => d
            | None => None
            end) with (tier_of allQuestions).
  generalize zero_counter.
  induction problems as [|p ps IH]; intros c; [reflexivity|].
  cbn [List.filter].
  destruct (counted allQuestions p) eqn:Hp; cbn [map fold_left].
  - apply IH.
  - rewrite (count_one_uncounted allQuestions p c Hp). apply IH.
Qed.

Lemma reconcile_ignores_uncounted_example :
  List.filter (counted Examples.catalog) Examples.three_files
  = firstn 2 Examples.three_files.
Proof. reflexivity. Qed.

Lemma incrementCounter_is_count_one difficulty w :
  counter (manager (incrementCounter difficulty w).2)
  = count_one (counter (manager w)) difficulty.
Proof.
  unfold incrementCounter, count_one.
  destruct difficulty as [d|]; [|reflexivity].
  destruct (truthy_string d); [|reflexivity].
  by destruct (in_counter (toLowerCase d)).
Qed.

Lemma count_all_snoc ds d : count_all (ds ++ [d]) = count_one (count_all ds) d.
Proof. unfold count_all. by rewrite fold_left_app. Qed.

(** X6.  The out-of-band increment agrees with the next recount: after
    a recount over some difficulties, [incrementCounter(d)] leaves the
    counters a recount over the same difficulties followed by [d] would
    produce. *)
Theorem incrementCounter_agrees_with_recount
    (difficulties : list (option jsstring)) (difficulty : option jsstring)
    (w : World) :
  counter (manager
    (incrementCounter difficulty (updateStats difficulties w).2).2)
  = counter (manager (updateStats (difficulties ++ [difficulty]) w).2).
Proof.
  rewrite incrementCounter_is_count_one, !updateStats_run. simpl.
  by rewrite count_all_snoc.
Qed.

Lemma is_tier_name_in_counter d :
  is_tier_name d = true ->
  truthy_string d = true /\ in_counter (toLowerCase d) = true.
Proof.
  unfold is_tier_name, in_counter. intros H. split.
  - rewrite <- toLowerCase_truthy.
    apply orb_true_iff in H as [H|H];
      [apply orb_true_iff in H as [H|H]|];
      apply str_eqb_eq in H; by rewrite H.
  - by rewrite H.
Qed.

Lemma js_increment_below x : (x < 2 ^ 53)%Z -> js_increment x = (x + 1)%Z.
Proof. unfold js_increment. destruct (Z.ltb_spec x (2 ^ 53)); lia. Qed.

Lemma incrementCounter_accepted d w :
  truthy_string d = true -> in_counter (toLowerCase d) = true ->
  incrementCounter (Some d) w
  = (Normal (Some true),
     let s := {| counter := counter_add (toLowerCase d) (counter (manager w));
                 isCountingComplete := isCountingComplete (manager w);
                 lastUpdate := Some (now w);
                 loading := loading (manager w) |} in
     {| manager := s; storage := storage w;
        sent := sent w ++ [getStats s];
        now := now w; requests := requests w |}).
Proof. intros Ht Hin. unfold incrementCounter. by rewrite Ht, Hin. Qed.

Lemma counter_add_tier_total d c :
  is_tier_name d = true ->
  (easy c < 2 ^ 53)%Z -> (medium c < 2 ^ 53)%Z -> (hard c < 2 ^ 53)%Z ->
  total (counter_add (toLowerCase d) c) = (total c + 1)%Z.
Proof.
  unfold is_tier_name, counter_add, total. intros Htier He Hm Hh.
  destruct (str_eqb (toLowerCase d) (js "easy")); simpl.
  { rewrite js_increment_below by exact He. lia. }
  destruct (str_eqb (toLowerCase d) (js "medium")); simpl.
  { rewrite js_increment_below by exact Hm. lia. }
  simpl in Htier. rewrite Htier. simpl.
  rewrite js_increment_below by exact Hh. lia.
Qed.

(** X7.  [incrementCounter] answers [true] for a tier name in any mix
    of cases, adds one unit in all (as long as the counters are below
    2^53), stamps the update and broadcasts the new statistics once.
    Whenever it does not answer [true] the world is exactly as before:
    nothing is counted and nothing is broadcast.  A value that is not a
    tier name never moves a counter. *)
Theorem incrementCounter_outcome (difficulty : jsstring) (w : World) :
  let r := incrementCounter (Some difficulty) w in
  (is_tier_name difficulty = true ->
     r.1 = Normal (Some true)
     /\ sent r.2 = sent w ++ [getStats (manager r.2)]
     /\ lastUpdate (manager r.2) = Some (now w)
     /\ loading (manager r.2) = loading (manager w)
     /\ storage r.2 = storage w
     /\ ((easy (counter (manager w)) < 2 ^ 53)%Z ->
         (medium (counter (manager w)) < 2 ^ 53)%Z ->
         (hard (counter (manager w)) < 2 ^ 53)%Z ->
         total (counter (manager r.2))
         = (total (counter (manager w)) + 1)%Z))
  /\ (r.1 <> Normal (Some true) -> r.2 = w)
  /\ (is_tier_name difficulty = false ->
      counter (manager r.2) = counter (manager w)).
Proof.
  intros r. subst r. split; [|split].
  - intros Htier.
    destruct (is_tier_name_in_counter difficulty Htier) as [Ht Hin].
    rewrite (incrementCounter_accepted difficulty w Ht Hin).
    cbn [fst snd manager sent lastUpdate loading storage counter].
    do 5 (split; [reflexivity|]).
    by apply counter_add_tier_total.
  - unfold incrementCounter.
    destruct (truthy_string difficulty); [|by destruct w].
    destruct (in_counter (toLowerCase difficulty)); [|by destruct w].
    intros H. by destruct H.
  - intros Hnot. rewrite incrementCounter_is_count_one.
    by apply count_one_not_tier.
Qed.

Lemma incrementCounter_outcome_witness :
  is_tier_name (js "MEDIUM") = true
  /\ (incrementCounter (Some (js "MEDIUM")) Examples.world).1
     = Normal (Some true)
  /\ total (counter (manager
       (incrementCounter (Some (js "MEDIUM")) Examples.world).2)) = 7%Z.
Proof.
  split; [reflexivity|].
  destruct (incrementCounter_outcome (js "MEDIUM") Examples.world)
    as (Hacc & _ & _).
  destruct (Hacc eq_refl) as (Hr & _ & _ & _ & _ & Htotal).
  split; [exact Hr|].
  rewrite Htotal; [reflexivity| | |]; simpl; lia.
Defined.

End CatalogFacts.

(** * The controller on every path *)

Section ControllerPaths.
Import Background Messages.

Lemma initCounter_effect (env : Env) (w : World) :
  exists w',
    initCounter env w = (Normal tt, w')
    /\ storage w' = storage w /\ now w' = now w /\ requests w' = requests w
    /\ sent w' = sent w ++ [getStats (manager w')].
Proof.
  destruct (configured w) eqn:Hc.
  - rewrite initCounter_run_configured by exact Hc. eexists. split; [reflexivity|].
    simpl. auto.
  - rewrite initCounter_run_unconfigured, show_completed_run by exact Hc.
    eexists. split; [reflexivity|]. simpl. auto.
Qed.

Lemma startSync_reported_success (env : Env) w result st :
  syncService_startSync env (storage w) = (Normal result, st) ->
  success result = true ->
  startSync env w
  = (Normal result,
     (initCounter env
        (storage_set
           (sync_status_record env (js "success") (message result) (now w))
           {| manager := manager w; storage := st; sent := sent w;
              now := now w; requests := requests w |}).2).2).
Proof.
  intros Hsync Hs.
  unfold startSync, try_catch. unfold bind at 1. unfold run_sync at 1.
  rewrite Hsync. cbv beta iota.
  unfold bind at 1. unfold new_Date at 1. cbv beta iota. cbn [now].
  unfold bind at 1. unfold storage_set at 1. cbv beta iota.
  rewrite Hs. unfold bind at 1. unfold storage_set. cbn [snd].
  match goal with |- context [initCounter env ?w1] =>
    destruct (initCounter_effect env w1) as (w2 & Hrun & _) end.
  rewrite Hrun. reflexivity.
Qed.


Lemma startSync_settled (env : Env) (w : World) :
  exists result w',
    startSync env w = (Normal result, w')
    /\ ((manager w' = manager w /\ sent w' = sent w) \/ in_step w').
Proof.
  destruct (syncService_startSync env (storage w)) as [[result|error] st]
    eqn:Hsync.
  - destruct (success result) eqn:Hs.
    + rewrite (startSync_reported_success env w result st Hsync Hs).
      match goal with |- context [initCounter env ?w1] =>
        destruct (initCounter_effect env w1) as (w2 & Hrun & _ & _ & _ & Hsent)
      end.
      rewrite Hrun. eexists _, _. split; [reflexivity|]. right.
      unfold in_step. eauto.
    + rewrite (startSync_reported_failure env w result st Hsync Hs).
      eexists _, _. split; [reflexivity|]. left. split; reflexivity.
  - rewrite (startSync_thrown_failure env w error st Hsync).
    eexists _, _. split; [reflexivity|]. left. split; reflexivity.
Qed.



End ControllerPaths.

(** * Messages and installation defaults *)

Section MessageFacts.
Import Background Messages.


Lemma bind_ret_result {A B} (m : M A) (f : A -> B) w :
  (bind m (fun a => ret (f a)) w).2 = (m w).2
  /\ (forall a, (m w).1 = Normal a ->
        (bind m (fun a => ret (f a)) w).1 = Normal (f a)).
Proof.
  unfold bind, ret. destruct (m w) as [[a|e] w']; simpl; split; try done.
  by intros ? [= ->].
Qed.




Lemma user_keys_distinct :
  username_key <> token_key /\ username_key <> repo_key
  /\ token_key <> repo_key.
Proof. repeat split; intros H; vm_compute in H; discriminate H. Qed.

(** X11.  What [saveUserInfos] stores can be read back: the user name
    and the token of the request, every other key as before; the state
    manager is not touched.  From then on the script counts as
    configured exactly when both are non-empty and a repository is
    stored. *)
Theorem saveUserInfos_read_back (request : Request) (w : World) :
  let w' := (saveUserInfos request w).2 in
  read w' username_key = VString (req_username request)
  /\ read w' token_key = VString (req_token request)
  /\ (forall k, k <> username_key -> k <> token_key -> read w' k = read w k)
  /\ manager w' = manager w
  /\ sent w' = sent w
  /\ configured w'
     = truthy_string (req_token request)
       && truthy_string (req_username request)
       && truthy (read w repo_key).
Proof.
  destruct user_keys_distinct as (H1 & H2 & H3).
  intros w'. subst w'. unfold saveUserInfos, storage_set, read, configured.
  cbn [snd fold_left fst storage manager sent].
  fold username_key token_key repo_key.
  split; [by rewrite lookup_insert_ne, lookup_insert_eq by congruence|].
  split; [by rewrite lookup_insert_eq|].
  split; [intros k K1 K2; by rewrite !lookup_insert_ne by congruence|].
  do 2 (split; [reflexivity|]).
  rewrite lookup_insert_eq.
  rewrite (lookup_insert_ne _ token_key username_key) by congruence.
  rewrite lookup_insert_eq.
  rewrite !(lookup_insert_ne _ _ repo_key) by congruence.
  reflexivity.
Qed.

Lemma incrementCounter_step difficulty w :
  (incrementCounter difficulty w).2 = w
  \/ in_step (incrementCounter difficulty w).2.
Proof.
  unfold incrementCounter. destruct difficulty as [d|]; [|left; by destruct w].
  destruct (truthy_string d); [|left; by destruct w].
  destruct (in_counter (toLowerCase d)); [|left; by destruct w].
  right. unfold in_step. simpl. eauto.
Qed.

Lemma in_step_kept w w' :
  in_step w -> manager w' = manager w -> sent w' = sent w -> in_step w'.
Proof. unfold in_step. intros [b Hb] -> ->. eauto. Qed.

Lemma key_names_distinct :
  code_submit_key <> multiple_submission_key
  /\ code_submit_key <> comment_submission_key
  /\ code_submit_key <> auto_sync_key
  /\ multiple_submission_key <> comment_submission_key
  /\ multiple_submission_key <> auto_sync_key
  /\ comment_submission_key <> auto_sync_key.
Proof. repeat split; intros H; vm_compute in H; discriminate H. Qed.

Lemma onInstalled_run reason w :
  onInstalled reason w
  = (Normal tt,
     if str_eqb reason (js "install") || str_eqb reason (js "update")
     then {| manager := manager w;
             storage := installed_storage (storage w);
             sent := sent w; now := now w; requests := requests w |}
     else w).
Proof.
  unfold onInstalled.
  destruct (str_eqb reason (js "install") || str_eqb reason (js "update"));
    [|reflexivity].
  unfold installed_storage, with_default, bind, storage_get, storage_set, ret.
  cbn [fst snd fold_left storage manager sent now requests].
  destruct (is_undefined (default VUndefined (storage w !! code_submit_key)));
    cbn [storage manager sent now requests fold_left fst snd];
    match goal with |- context [is_undefined ?v] => destruct (is_undefined v) end;
    cbn [storage manager sent now requests fold_left fst snd];
    try reflexivity; by destruct w.
Qed.

Lemma with_default_lookup key m :
  with_default key m !! key
  = Some (if is_undefined (default VUndefined (m !! key)) then VBool true
          else default VUndefined (m !! key))
  /\ is_undefined (default VUndefined (with_default key m !! key)) = false
  /\ (forall k, k <> key -> with_default key m !! k = m !! k).
Proof.
  unfold with_default.
  destruct (m !! key) as [v|] eqn:E; simpl.
  - destruct (is_undefined v) eqn:Hv.
    + rewrite lookup_insert_eq. repeat split; try done.
      intros k Hk. by rewrite lookup_insert_ne.
    + rewrite E. simpl. repeat split; done.
  - rewrite lookup_insert_eq. repeat split; try done.
    intros k Hk. by rewrite lookup_insert_ne.
Qed.

Lemma with_default_settled key m :
  is_undefined (default VUndefined (m !! key)) = false ->
  with_default key m = m.
Proof. unfold with_default. by intros ->. Qed.

Lemma installed_storage_lookup m :
  let m' := installed_storage m in
  m' !! code_submit_key = with_default code_submit_key m !! code_submit_key
  /\ m' !! auto_sync_key = with_default auto_sync_key m !! auto_sync_key
  /\ m' !! multiple_submission_key = Some (VBool false)
  /\ m' !! comment_submission_key = Some (VBool false)
  /\ (forall k, k <> code_submit_key -> k <> auto_sync_key ->
                k <> multiple_submission_key -> k <> comment_submission_key ->
                m' !! k = m !! k).
Proof.
  destruct key_names_distinct as (H1 & H2 & H3 & H4 & H5 & H6).
  intros m'. subst m'. unfold installed_storage.
  set (m1 := with_default code_submit_key m).
  set (m3 := <[comment_submission_key:=VBool false]>
               (<[multiple_submission_key:=VBool false]> m1)).
  assert (Hauto : m3 !! auto_sync_key = m !! auto_sync_key).
  { unfold m3, m1. rewrite !lookup_insert_ne by congruence.
    apply with_default_lookup. congruence. }
  destruct (with_default_lookup auto_sync_key m3) as (Ha & _ & Hrest).
  destruct (with_default_lookup code_submit_key m) as (Hc & _ & Hrest1).
  split.
  { rewrite Hrest by congruence. unfold m3.
    by rewrite !lookup_insert_ne by congruence. }
  split.
  { rewrite Ha, Hauto.
    by destruct (with_default_lookup auto_sync_key m) as (-> & _). }
  split.
  { rewrite Hrest by congruence. unfold m3.
    by rewrite lookup_insert_ne, lookup_insert_eq by congruence. }
  split.
  { rewrite Hrest by congruence. unfold m3. by rewrite lookup_insert_eq. }
  intros k K1 K2 K3 K4. rewrite Hrest by congruence. unfold m3, m1.
  rewrite !lookup_insert_ne by congruence. by apply Hrest1.
Qed.

Lemma installed_storage_idempotent m :
  installed_storage (installed_storage m) = installed_storage m.
Proof.
  destruct (installed_storage_lookup m) as (Hc & Ha & Hm & Hk & _).
  cbv zeta in *. set (m' := installed_storage m) in *.
  unfold installed_storage at 1.
  rewrite (with_default_settled code_submit_key m').
  2:{ rewrite Hc. apply with_default_lookup. }
  rewrite (insert_id m' multiple_submission_key) by exact Hm.
  rewrite (insert_id m' comment_submission_key) by exact Hk.
  apply with_default_settled. rewrite Ha. apply with_default_lookup.
Qed.

(** X12.  On install and on update the listener gives the code-submit
    and auto-sync settings their default [true] only where they read
    [undefined], a value the user has stored is kept; the two
    submission flags are forced to [false]; every other key and the
    state manager are left alone.  Running it again changes nothing.
    For any other reason the world is untouched. *)
Theorem onInstalled_defaults (reason : jsstring) (w : World) :
  let w' := (onInstalled reason w).2 in
  let keep_or_true v := if is_undefined v then VBool true else v in
  manager w' = manager w /\ sent w' = sent w
  /\ (onInstalled reason w').2 = w'
  /\ if str_eqb reason (js "install") || str_eqb reason (js "update")
     then read w' code_submit_key = keep_or_true (read w code_submit_key)
          /\ read w' auto_sync_key = keep_or_true (read w auto_sync_key)
          /\ read w' multiple_submission_key = VBool false
          /\ read w' comment_submission_key = VBool false
          /\ (forall k, k <> code_submit_key -> k <> auto_sync_key ->
                 k <> multiple_submission_key -> k <> comment_submission_key ->
                 read w' k = read w k)
     else w' = w.
Proof.
  intros w' keep. subst w' keep. rewrite !onInstalled_run. cbn [snd].
  destruct (str_eqb reason (js "install") || str_eqb reason (js "update"));
    [|repeat split; reflexivity].
  cbn [manager sent storage now requests].
  do 2 (split; [reflexivity|]).
  split; [by rewrite installed_storage_idempotent|].
  destruct (installed_storage_lookup (storage w)) as (Hc & Ha & Hm & Hk & Hrest).
  cbv zeta in *. unfold read. cbn [storage].
  rewrite Hc, Ha, Hm, Hk.
  destruct (with_default_lookup code_submit_key (storage w)) as (-> & _).
  destruct (with_default_lookup auto_sync_key (storage w)) as (-> & _).
  repeat split; try reflexivity.
  intros k K1 K2 K3 K4. by rewrite Hrest.
Qed.

Lemma onInstalled_keeps_choice :
  read (onInstalled (js "update") MoreExamples.opted_out_world).2
    code_submit_key = VBool false
  /\ read (onInstalled (js "update") MoreExamples.opted_out_world).2
       auto_sync_key = VBool true.
Proof. split; reflexivity. Qed.

Lemma handle_message_step (env : Env) request w :
  let w' := (handle_message env request w).2 in
  (manager w' = manager w /\ sent w' = sent w) \/ in_step w'.
Proof.
  intros w'. subst w'. unfold handle_message.
  destruct (str_eqb _ (js "updateDifficultyStats")).
  { rewrite (proj1 (bind_ret_result _ (fun s => [SuccessResponse s]) w)).
    destruct (incrementCounter_step (req_difficulty request) w) as [->|H];
      auto. }
  destruct (str_eqb _ (js "getDataConfig")); [left; by split|].
  destruct (str_eqb _ (js "saveUserInfos")); [left; by split|].
  destruct (str_eqb _ (js "syncSolvedProblems")).
  { unfold try_catch, bind.
    destruct (startSync_settled env w) as (result & w' & Hrun & Hstep).
    rewrite Hrun. exact Hstep. }
  destruct (str_eqb _ (js "requestInitialStats")).
  { unfold try_catch, bind.
    destruct (initCounter_effect env w) as (w' & Hrun & _ & _ & _ & Hsent).
    rewrite Hrun. right. unfold in_step. simpl. eauto. }
  destruct (is_one_of inherited_throwing _); left; by split.
Qed.

(** X13.  Observers stay in step with the background state: if the last
    [statsUpdate] message carries the current statistics, it still does
    after any call of [incrementCounter], [updateStats], [initCounter],
    [startSync], after any message handled and after the install
    listener.  Every change of the statistics is followed by a
    broadcast. *)
Theorem observers_stay_in_step (env : Env) (w : World) :
  in_step w ->
  (forall difficulty, in_step (incrementCounter difficulty w).2)
  /\ (forall difficulties, in_step (updateStats difficulties w).2)
  /\ in_step (initCounter env w).2
  /\ in_step (startSync env w).2
  /\ (forall request, in_step (handle_message env request w).2)
  /\ (forall reason, in_step (onInstalled reason w).2).
Proof.
  intros Hw. repeat split.
  - intros difficulty.
    destruct (incrementCounter_step difficulty w) as [->|H]; auto.
  - intros difficulties. rewrite updateStats_run. unfold in_step. simpl. eauto.
  - destruct (initCounter_effect env w) as (w' & Hrun & _ & _ & _ & Hsent).
    rewrite Hrun. unfold in_step. simpl. eauto.
  - destruct (startSync_settled env w) as (result & w' & Hrun & Hstep).
    rewrite Hrun. simpl.
    destruct Hstep as [[Hm Hs]|H]; [by apply (in_step_kept w)|exact H].
  - intros request.
    destruct (handle_message_step env request w) as [[Hm Hs]|H];
      [by apply (in_step_kept w)|exact H].
  - intros reason. rewrite onInstalled_run. simpl.
    destruct (str_eqb reason (js "install") || str_eqb reason (js "update"));
      [|exact Hw].
    by apply (in_step_kept w).
Qed.

Lemma observers_stay_in_step_witness :
  in_step (updateStats [] Examples.world).2
  /\ in_step (startSync Examples.env (updateStats [] Examples.world).2).2.
Proof.
  assert (H : in_step (updateStats [] Examples.world).2).
  { unfold in_step. simpl. by exists []. }
  split; [exact H|].
  destruct (observers_stay_in_step Examples.env _ H) as (_ & _ & _ & Hsync & _).
  exact Hsync.
Defined.

End MessageFacts.

(** * The poller: URLs, timing and outcomes *)

Section PollerMore.
Import Poller.

Lemma lang_lit l s : lang (Lit l) s <-> s = l.
Proof.
  revert s. induction l as [|c l IH]; intros s; simpl.
  - split; [apply lang_eps_inv|intros ->; constructor].
  - split.
    + intros H. apply lang_cat_inv in H as (s1 & s2 & -> & H1 & H2).
      apply lang_class_inv in H1 as (d & -> & Hd).
      apply N.eqb_eq in Hd as ->. apply IH in H2 as ->. reflexivity.
    + intros ->. change (c :: l) with ([c] ++ l). constructor.
      * constructor. apply N.eqb_refl.
      * by apply IH.
Qed.

Lemma take_drop_while {A} (p : A -> bool) (l : list A) :
  take_while p l ++ drop_while p l = l
  /\ forallb p (take_while p l) = true
  /\ (forall x rest, drop_while p l = x :: rest -> p x = false).
Proof.
  induction l as [|a l (IH1 & IH2 & IH3)]; simpl.
  { split; [reflexivity|]. split; [reflexivity|]. intros x rest H. discriminate H. }
  destruct (p a) eqn:Ha; simpl.
  - rewrite IH1, IH2, Ha. split; [reflexivity|]. split; [reflexivity|exact IH3].
  - split; [reflexivity|]. split; [reflexivity|].
    intros x rest H. injection H as <- _. exact Ha.
Qed.

Lemma search_found r s t :
  search r s = Some t ->
  matches_prefix r t = true
  /\ exists pre, s = pre ++ t
       /\ forall a b, s = a ++ b -> (length a < length pre)%nat ->
            matches_prefix r b = false.
Proof.
  revert t. induction s as [|c s IH]; intros t; cbn [search].
  - destruct (matches_prefix r []) eqn:E; [|done].
    intros [= <-]. split; [exact E|]. exists []. split; [done|].
    intros a b _ Hlen. simpl in Hlen. lia.
  - destruct (matches_prefix r (c :: s)) eqn:E.
    + intros [= <-]. split; [exact E|]. exists []. split; [done|].
      intros a b _ Hlen. simpl in Hlen. lia.
    + intros H. destruct (IH t H) as (Hm & pre & -> & Hleft).
      split; [exact Hm|]. exists (c :: pre). split; [done|].
      intros a b Hab Hlen. destruct a as [|c' a]; simpl in Hab.
      * by subst b.
      * injection Hab as <- Hab. apply (Hleft a b Hab). simpl in Hlen. lia.
Qed.

Lemma search_not_found r s :
  search r s = None ->
  forall a b, s = a ++ b -> matches_prefix r b = false.
Proof.
  induction s as [|c s IH]; cbn [search].
  - destruct (matches_prefix r []) eqn:E; [done|].
    intros _ a b Hab. symmetry in Hab. by apply app_eq_nil in Hab as [-> ->].
  - destruct (matches_prefix r (c :: s)) eqn:E; [done|].
    intros H a b Hab. destruct a as [|c' a]; simpl in Hab.
    + by subst b.
    + injection Hab as <- Hab. by apply (IH H a b).
Qed.

Lemma submission_url_pattern_matches t :
  matches_prefix submission_url_pattern t = true
  <-> exists d rest, t = js "/submissions/" ++ d :: rest /\ is_digit d = true.
Proof.
  rewrite matches_prefix_lang. unfold submission_url_pattern. split.
  - intros (p & q & -> & H).
    apply lang_cat_inv in H as (s1 & s2 & -> & H1 & H2).
    apply lang_lit in H1 as ->.
    apply lang_plus_class_inv in H2 as (d & ds & -> & Hd).
    exists d, (ds ++ q). split; [|exact Hd].
    by rewrite <- !app_assoc.
  - intros (d & rest & -> & Hd).
    exists (js "/submissions/" ++ [d]), rest. split.
    + by rewrite <- app_assoc.
    + constructor; [by apply lang_lit|].
      change [d] with ([d] ++ []). constructor; by constructor.
Qed.

(** X14.  [getSubmissionIdFromURL] returns the digits that follow the
    first [/submissions/] that is followed by a digit: the result is a
    non-empty string of digits, it is the whole run of digits at that
    place, and no such place lies further left.  It returns [null]
    exactly when the URL has no [/submissions/] followed by a digit. *)
Theorem getSubmissionIdFromURL_finds_first_id (url : jsstring) :
  match getSubmissionIdFromURL url with
  | Some id =>
      truthy_string id = true
      /\ forallb is_digit id = true
      /\ exists pre post,
           url = pre ++ js "/submissions/" ++ id ++ post
           /\ (forall d post', post = d :: post' -> is_digit d = false)
           /\ (forall a d b,
                 url = a ++ js "/submissions/" ++ d :: b ->
                 is_digit d = true -> (length pre <= length a)%nat)
  | None =>
      forall a d b,
        url = a ++ js "/submissions/" ++ d :: b -> is_digit d = false
  end.
Proof.
  unfold getSubmissionIdFromURL.
  destruct (search submission_url_pattern url) as [t|] eqn:Hsearch.
  - apply search_found in Hsearch as (Hm & pre & -> & Hleft).
    apply submission_url_pattern_matches in Hm as (d & rest & -> & Hd).
    change (drop 13 (js "/submissions/" ++ d :: rest)) with (d :: rest).
    destruct (take_drop_while is_digit (d :: rest)) as (Hsplit & Hall & Hstop).
    split; [simpl; by rewrite Hd|]. split; [exact Hall|].
    exists pre, (drop_while is_digit (d :: rest)).
    split; [by rewrite Hsplit|]. split; [exact Hstop|].
    intros a d' b Hab Hd'.
    destruct (Nat.le_gt_cases (length pre) (length a)) as [|Hlt]; [done|].
    specialize (Hleft a _ Hab Hlt).
    assert (matches_prefix submission_url_pattern
              (js "/submissions/" ++ d' :: b) = true) as Hyes
      by (apply submission_url_pattern_matches; eauto).
    congruence.
  - intros a d b Hab.
    pose proof (search_not_found _ _ Hsearch a _ Hab) as Hno.
    destruct (is_digit d) eqn:Hd; [|reflexivity].
    assert (matches_prefix submission_url_pattern
              (js "/submissions/" ++ d :: b) = true) as Hyes
      by (apply submission_url_pattern_matches; eauto).
    congruence.
Qed.

Lemma getSubmissionIdFromURL_example :
  getSubmissionIdFromURL MoreExamples.two_sum_url = Some (js "1774457019")
  /\ getSubmissionIdFromURL
       (js "https://leetcode.com/problems/two-sum/submissions/") = None.
Proof. split; reflexivity. Qed.

Lemma waitForSubmissionURL_loop_sleep (location : nat -> jsstring) fuel :
  forall attempt log r out,
    (1 <= attempt <= url_maxAttempts)%nat ->
    waitForSubmissionURL_loop location fuel attempt log = Some (r, out) ->
    exists add,
      out = log ++ add
      /\ slept add
         = (url_pollInterval * (Z.of_nat (location_reads add) - 1))%Z.
Proof.
  unfold url_maxAttempts, url_pollInterval.
  induction fuel as [|fuel IH]; intros attempt log r out Ha; [done|].
  simpl. unfold url_maxAttempts, url_pollInterval.
  destruct (Nat.leb_spec attempt 20) as [_|]; [|lia].
  destruct (truthy_id (getSubmissionIdFromURL (location attempt))).
  { intros [= <- <-]. exists [ReadLocation]. split; reflexivity. }
  destruct (Nat.ltb_spec attempt 20) as [Hlt|Hge].
  - intros Hrun. apply IH in Hrun as (add & -> & Hadd); [|lia].
    exists ([ReadLocation; Sleep 500%Z] ++ add).
    split; [by rewrite <- !app_assoc|].
    rewrite slept_app, location_reads_app, Hadd.
    change (slept [ReadLocation; Sleep 500%Z]) with 500%Z.
    change (location_reads [ReadLocation; Sleep 500%Z]) with 1%nat. lia.
  - destruct fuel as [|fuel']; [done|]. simpl. unfold url_maxAttempts.
    destruct (Nat.leb_spec attempt 19) as [|_]; [lia|].
    intros [= <- <-]. exists [ReadLocation]. split; reflexivity.
Qed.

(** X15.  The time [waitForSubmissionURL] spends sleeping is exactly
    500 ms for every read of the location but the last: nothing when the
    URL already shows an identifier, 500 (n - 1) ms when the identifier
    appears at the n-th read, 9500 ms when it never appears. *)
Theorem waitForSubmissionURL_timing (location : nat -> jsstring) (extra : nat) :
  exists r log,
    waitForSubmissionURL location (S url_maxAttempts + extra) = Some (r, log)
    /\ slept log = (500 * (Z.of_nat (location_reads log) - 1))%Z
    /\ (truthy_id (getSubmissionIdFromURL (location 1%nat)) = true ->
        r = getSubmissionIdFromURL (location 1%nat) /\ log = [ReadLocation])
    /\ match r with
       | Some id =>
           exists n, getSubmissionIdFromURL (location n) = Some id
                     /\ slept log = (500 * (Z.of_nat n - 1))%Z
       | None => slept log = 9500%Z
       end.
Proof.
  destruct (waitForSubmissionURL_loop_total location
              (S url_maxAttempts + extra) 1 [])
    as (r & log & Hrun & _ & _ & Hr);
    [unfold url_maxAttempts; lia | lia |].
  simpl app in Hrun. exists r, log. split; [exact Hrun|].
  destruct (waitForSubmissionURL_loop_sleep location _ 1 [] r log
              ltac:(unfold url_maxAttempts; lia) Hrun)
    as (add & Hadd & Hsleep).
  simpl in Hadd. subst add. unfold url_pollInterval in Hsleep.
  split; [exact Hsleep|]. split.
  - intros Hfirst. unfold waitForSubmissionURL in Hrun. simpl in Hrun.
    rewrite Hfirst in Hrun. by injection Hrun as <- <-.
  - destruct r as [id|].
    + destruct Hr as (n & _ & Hget & _ & _ & Hcount).
      exists n. split; [exact Hget|]. rewrite Hsleep. lia.
    + destruct Hr as [_ Hcount]. unfold url_maxAttempts in Hcount.
      rewrite Hsleep. lia.
Qed.

Lemma waitForSubmissionURL_timing_example :
  (snd <$> waitForSubmissionURL Examples.late_location 21)
  = Some [ReadLocation; Sleep 500; ReadLocation; Sleep 500; ReadLocation].
Proof. reflexivity. Qed.

Lemma pollForSubmissionData_loop_result {Payload : Type}
    (fetch : nat -> option (SubmissionData Payload)) id fuel :
  forall attempt log r out,
    pollForSubmissionData_loop fetch id fuel attempt log = Some (r, out) ->
    match r with
    | Some data =>
        exists n, (attempt <= n <= poll_maxAttempts)%nat
          /\ fetch n = Some data
          /\ finished data = true
          /\ str_eqb (state data) (js "PENDING") = false
          /\ (forall k, (attempt <= k < n)%nat ->
                exists d, fetch k = Some d /\ keeps_polling d = true)
    | None =>
        (exists n, (attempt <= n <= poll_maxAttempts)%nat
           /\ fetch n = None
           /\ (forall k, (attempt <= k < n)%nat ->
                 exists d, fetch k = Some d /\ keeps_polling d = true))
        \/ (forall k, (attempt <= k <= poll_maxAttempts)%nat ->
              exists d, fetch k = Some d /\ keeps_polling d = true)
    end.
Proof.
  unfold poll_maxAttempts.
  induction fuel as [|fuel IH]; intros attempt log r out; [done|].
  simpl. unfold poll_maxAttempts.
  destruct (Nat.leb_spec attempt 10) as [Hle|Hgt].
  2:{ intros [= <- _]. right. intros k Hk. lia. }
  assert (Hnext : forall log',
    (exists d, fetch attempt = Some d /\ keeps_polling d = true) ->
    pollForSubmissionData_loop fetch id fuel (S attempt) log' = Some (r, out) ->
    match r with
    | Some data =>
        exists n, (attempt <= n <= 10)%nat
          /\ fetch n = Some data /\ finished data = true
          /\ str_eqb (state data) (js "PENDING") = false
          /\ (forall k, (attempt <= k < n)%nat ->
                exists d, fetch k = Some d /\ keeps_polling d = true)
    | None =>
        (exists n, (attempt <= n <= 10)%nat
           /\ fetch n = None
           /\ (forall k, (attempt <= k < n)%nat ->
                 exists d, fetch k = Some d /\ keeps_polling d = true))
        \/ (forall k, (attempt <= k <= 10)%nat ->
              exists d, fetch k = Some d /\ keeps_polling d = true)
    end).
  { intros log' Hhere Hrun. apply IH in Hrun.
    assert (Hk : forall n k, (attempt <= k < n)%nat ->
              (forall k, (S attempt <= k < n)%nat ->
                 exists d, fetch k = Some d /\ keeps_polling d = true) ->
              exists d, fetch k = Some d /\ keeps_polling d = true).
    { intros n k Hk Hrest.
      destruct (Nat.eq_dec k attempt) as [->|]; [exact Hhere|].
      apply Hrest. lia. }
    destruct r as [data|].
    - destruct Hrun as (n & Hn & Hf & Hfin & Hp & Hrest).
      exists n. split; [lia|]. do 3 (split; [assumption|]).
      intros k Hk'. by apply (Hk n).
    - destruct Hrun as [(n & Hn & Hf & Hrest)|Hall].
      + left. exists n. split; [lia|]. split; [assumption|].
        intros k Hk'. by apply (Hk n).
      + right. intros k Hk'.
        destruct (Nat.eq_dec k attempt) as [->|]; [exact Hhere|].
        apply Hall. lia. }
  destruct (fetch attempt) as [data|] eqn:Hfetch.
  2:{ intros [= <- _]. left. exists attempt.
      split; [lia|]. split; [exact Hfetch|]. intros k Hk; lia. }
  destruct (str_eqb (state data) (js "PENDING")) eqn:Hpending.
  - assert (Hkeep : exists d, Some data = Some d /\ keeps_polling d = true).
    { exists data. unfold keeps_polling. by rewrite Hpending. }
    destruct (Nat.ltb_spec attempt 10) as [Hlt|Hge].
    + apply Hnext, Hkeep.
    + intros [= <- _]. right. intros k Hk.
      assert (k = attempt) as -> by lia. by rewrite Hfetch.
  - destruct (finished data) eqn:Hfin.
    + assert (Hret : Some (Some data, log ++ [FetchSubmission id])
                     = Some (r, out) ->
                     r = Some data) by (by intros [= <- _]).
      rewrite andb_true_r.
      intros Hrun.
      assert (r = Some data) as ->
        by (destruct (str_eqb (status_msg data) (js "Accepted")); auto).
      exists attempt. split; [lia|]. split; [exact Hfetch|].
      split; [exact Hfin|]. split; [exact Hpending|]. intros k Hk; lia.
    + rewrite andb_false_r. apply Hnext.
      exists data. unfold keeps_polling. by rewrite Hpending, Hfin.
Qed.

(** X16.  [pollForSubmissionData] only ever returns a response of the
    source that is finished and not pending, namely the first response
    that does not keep the loop polling; it returns [null] when that
    first response is no data, or when all ten responses keep it
    polling.  It never sleeps more than nine seconds. *)
Theorem pollForSubmissionData_returns_first_finished {Payload : Type}
    (fetch : nat -> option (SubmissionData Payload))
    (submissionId : jsstring) (extra : nat) :
  exists r log,
    pollForSubmissionData fetch submissionId (S poll_maxAttempts + extra)
    = Some (r, log)
    /\ (slept log <= 9000)%Z
    /\ match r with
       | Some data =>
           exists n, (1 <= n <= poll_maxAttempts)%nat
             /\ fetch n = Some data
             /\ finished data = true
             /\ str_eqb (state data) (js "PENDING") = false
             /\ (forall k, (1 <= k < n)%nat ->
                   exists d, fetch k = Some d /\ keeps_polling d = true)
       | None =>
           (exists n, (1 <= n <= poll_maxAttempts)%nat
              /\ fetch n = None
              /\ (forall k, (1 <= k < n)%nat ->
                    exists d, fetch k = Some d /\ keeps_polling d = true))
           \/ (forall k, (1 <= k <= poll_maxAttempts)%nat ->
                 exists d, fetch k = Some d /\ keeps_polling d = true)
       end.
Proof.
  destruct (pollForSubmissionData_loop_total fetch submissionId
              (S poll_maxAttempts + extra) 1 [])
    as (r & log & Hrun & _ & _ & Hslept);
    [unfold poll_maxAttempts; lia | lia |].
  exists r, log. split; [exact Hrun|].
  unfold poll_maxAttempts, poll_pollInterval in Hslept. simpl in Hslept.
  split; [lia|].
  exact (pollForSubmissionData_loop_result fetch submissionId _ 1 [] r _ Hrun).
Qed.

Lemma pollForSubmissionData_all_pending :
  pollForSubmissionData (fun _ => Some Examples.pending_data)
    (js "1774457019") 11
  = Some (None,
          waiting_log (js "1774457019") 9
          ++ [FetchSubmission (js "1774457019")]).
Proof. reflexivity. Qed.

Lemma pollForSubmissionData_loop_graphql {Payload : Type}
    (answers : nat -> GraphQLOutcome Payload) id fuel log :
  pollForSubmissionData_loop
    (fun attempt => fetchSubmissionData (answers attempt)) id (S fuel) 1 log
  = Some (fetchSubmissionData (answers 1%nat), log ++ [FetchSubmission id]).
Proof.
  simpl. destruct (answers 1%nat); try reflexivity.
  simpl. by destruct (statusCode =? 10)%Z.
Qed.

Lemma waitForSubmissionURL_loop_no_poll (location : nat -> jsstring) fuel :
  forall attempt log r out,
    waitForSubmissionURL_loop location fuel attempt log = Some (r, out) ->
    poll_cycles out = poll_cycles log.
Proof.
  induction fuel as [|fuel IH]; intros attempt log r out; [done|].
  simpl. destruct (attempt <=? url_maxAttempts)%nat.
  - destruct (truthy_id _).
    + intros [= _ <-]. rewrite poll_cycles_app.
      change (poll_cycles [ReadLocation]) with 0%nat. lia.
    + intros Hrun. apply IH in Hrun. rewrite Hrun.
      destruct (attempt <? url_maxAttempts)%nat;
        rewrite !poll_cycles_app;
        change (poll_cycles [ReadLocation]) with 0%nat;
        change (poll_cycles [Sleep url_pollInterval]) with 0%nat; lia.
  - by intros [= _ <-].
Qed.

(** X17.  Every call of the [extractSubmissionStatsFromURL] of part_002
    ends in one of three ways, after at most one request to the
    structured source and at most 11.5 seconds of sleeping: no
    identifier ever showed in the URL, and it throws [No submission ID
    in URL] without a request; or the one request gave no details, and
    it throws [Failed to fetch submission data]; or the request gave
    details, and the result is that of [extractSubmissionStatsFromAPI].
    The record is unchanged on the first two. *)
Theorem extractSubmissionStatsFromURL_outcomes {Payload Problem : Type}
    (ctx : Capture Payload Problem) (this : Problem) (extra : nat) :
  exists this' c log,
    extractSubmissionStatsFromURL ctx (S url_maxAttempts + extra) this
    = Some (this', c, log)
    /\ (poll_cycles log <= 1)%nat
    /\ (slept log <= 11500)%Z
    /\ ((c = Throw (Error (js "No submission ID in URL"))
         /\ this' = this /\ poll_cycles log = 0%nat
         /\ forall n, (1 <= n <= url_maxAttempts)%nat ->
              truthy_id (getSubmissionIdFromURL (href ctx n)) = false)
        \/ (exists n id,
              getSubmissionIdFromURL (href ctx n) = Some id
              /\ poll_cycles log = 1%nat
              /\ match fetchSubmissionData (graphql ctx id 1%nat) with
                 | None =>
                     c = Throw (Error (js "Failed to fetch submission data"))
                     /\ this' = this
                 | Some data =>
                     (this', c) = extractSubmissionStatsFromAPI ctx data this
                 end)).
Proof.
  destruct (waitForSubmissionURL_loop_total (href ctx)
              (S url_maxAttempts + extra) 1 [])
    as (r & log1 & Hrun & Hreads & Hslept & Hr);
    [unfold url_maxAttempts; lia | lia |].
  simpl app in Hrun. unfold extractSubmissionStatsFromURL.
  unfold waitForSubmissionURL. rewrite Hrun.
  unfold url_maxAttempts, url_pollInterval in *. simpl in Hslept.
  assert (Hnone : poll_cycles log1 = 0%nat)
    by exact (waitForSubmissionURL_loop_no_poll _ _ _ _ _ _ Hrun).
  destruct r as [id|].
  - destruct Hr as (n & Hn & Hget & Hid & _ & _). rewrite Hid.
    change (S 20 + extra)%nat with (S (20 + extra)).
    rewrite pollForSubmissionData_loop_graphql.
    set (log := (log1 ++ [Sleep 2000]) ++ [FetchSubmission id]).
    assert (Hcycles : poll_cycles log = 1%nat).
    { unfold log. rewrite !poll_cycles_app, Hnone. reflexivity. }
    assert (Hsl : (slept log <= 11500)%Z).
    { unfold log. rewrite !slept_app. simpl. lia. }
    destruct (fetchSubmissionData (graphql ctx id 1%nat)) as [data|] eqn:Hf.
    + destruct (extractSubmissionStatsFromAPI ctx data this) as [this' c] eqn:E.
      exists this', c, log. split; [reflexivity|].
      split; [lia|]. split; [exact Hsl|]. right.
      exists n, id. split; [exact Hget|]. split; [exact Hcycles|].
      by rewrite Hf.
    + eexists _, _, log. split; [reflexivity|].
      split; [lia|]. split; [exact Hsl|]. right.
      exists n, id. split; [exact Hget|]. split; [exact Hcycles|].
      by rewrite Hf.
  - destruct Hr as [Hnever _].
    eexists _, _, log1. split; [reflexivity|].
    split; [lia|]. split; [lia|]. left. auto.
Qed.

(** X18.  The copy of [extractSubmissionStatsFromURL] under
    [scripts/models] always produces a record and never throws: the one
    [extractSubmissionStatsFromAPI] makes of a finished response, or
    the one DOM extraction makes.  It polls at most ten times and sleeps
    at most eleven seconds. *)
Theorem legacy_extractSubmissionStatsFromURL_total {Payload Problem : Type}
    (ctx : LegacyPoller.Capture Payload Problem) (this : Problem)
    (extra : nat) :
  exists record log,
    LegacyPoller.extractSubmissionStatsFromURL ctx
      (S poll_maxAttempts + extra) this = Some (record, log)
    /\ (poll_cycles log <= poll_maxAttempts)%nat
    /\ (slept log <= 11000)%Z
    /\ (record = LegacyPoller.extractSubmissionStatsFromDOM ctx this
        \/ exists data,
             finished data = true
             /\ record
                = LegacyPoller.extractSubmissionStatsFromAPI ctx data this).
Proof.
  unfold LegacyPoller.extractSubmissionStatsFromURL.
  destruct (LegacyPoller.getSubmissionIdFromURL (LegacyPoller.href ctx))
    as [id|].
  2:{ eexists _, []. split; [reflexivity|]. unfold poll_maxAttempts.
      change (poll_cycles []) with 0%nat. change (slept []) with 0%Z.
      split; [lia|]. split; [lia|]. by left. }
  destruct (truthy_string id).
  2:{ eexists _, []. split; [reflexivity|]. unfold poll_maxAttempts.
      change (poll_cycles []) with 0%nat. change (slept []) with 0%Z.
      split; [lia|]. split; [lia|]. by left. }
  destruct (pollForSubmissionData_loop_total
              (LegacyPoller.fetchSubmissionData ctx id) id
              (S poll_maxAttempts + extra) 1 [Sleep 2000])
    as (r & log' & Hrun & Hcycles & _ & Hslept);
    [unfold poll_maxAttempts; lia | lia |].
  rewrite Hrun.
  pose proof (pollForSubmissionData_loop_result _ _ _ _ _ _ _ Hrun) as Hr.
  unfold poll_maxAttempts, poll_pollInterval in *. simpl in Hslept.
  assert (Hc : (poll_cycles ([Sleep 2000] ++ log') <= 10)%nat).
  { rewrite poll_cycles_app. change (poll_cycles [Sleep 2000]) with 0%nat. lia. }
  assert (Hs : (slept ([Sleep 2000] ++ log') <= 11000)%Z).
  { rewrite slept_app. simpl. lia. }
  destruct r as [data|].
  - destruct Hr as (n & _ & _ & Hfin & _).
    eexists _, _. split; [reflexivity|]. split; [exact Hc|].
    split; [exact Hs|]. right. eauto.
  - eexists _, _. split; [reflexivity|]. split; [exact Hc|].
    split; [exact Hs|]. by left.
Qed.

End PollerMore.

(** * Problem URLs and names *)

Section PageFacts.
Import Background Messages Page.

Lemma starts_with_app p x : starts_with p (p ++ x) = true.
Proof. induction p as [|c p IH]; [reflexivity|]. simpl. by rewrite N.eqb_refl. Qed.

Lemma replace_first_prefix p r x : replace_first p r (p ++ x) = r ++ x.
Proof.
  pose proof (starts_with_app p x) as H.
  destruct (p ++ x) as [|c s] eqn:E; simpl; rewrite H, <- E;
    by rewrite drop_app_length.
Qed.

Lemma includes_string_app p a b : includes_string p (a ++ p ++ b) = true.
Proof.
  induction a as [|c a IH]; simpl.
  - pose proof (starts_with_app p b) as H.
    destruct (p ++ b); simpl; by rewrite H.
  - rewrite IH. apply orb_true_r.
Qed.

Lemma nth0_split_cons sep c s :
  nth 0 (split sep (c :: s)) []
  = if c =? sep then [] else c :: nth 0 (split sep s) [].
Proof.
  simpl. destruct (c =? sep); [reflexivity|].
  pose proof (split_nonempty sep s). by destruct (split sep s).
Qed.

Lemma nth0_split_free sep name tail :
  free_of sep name = true ->
  (tail = [] \/ exists t, tail = sep :: t) ->
  nth 0 (split sep (name ++ tail)) [] = name.
Proof.
  intros Hname [->|[t ->]].
  - by rewrite app_nil_r, split_free.
  - by rewrite split_app_sep.
Qed.

Lemma nth0_split_is_free sep s : free_of sep (nth 0 (split sep s) []) = true.
Proof.
  induction s as [|c s IH]; [reflexivity|].
  rewrite nth0_split_cons. destruct (c =? sep) eqn:E; [reflexivity|].
  rewrite free_of_cons, E. exact IH.
Qed.

Lemma problemName_canonical name tail :
  free_of 47 name = true ->
  (tail = [] \/ exists t, tail = 47 :: t) ->
  problemName (problems_prefix ++ name ++ tail) = name.
Proof.
  intros Hname Htail. unfold problemName.
  rewrite replace_first_prefix. simpl app. by apply nth0_split_free.
Qed.

Lemma includes_marker x : includes_string problems_marker (problems_prefix ++ x) = true.
Proof.
  change problems_prefix with (js "https://" ++ problems_marker).
  rewrite <- app_assoc. apply includes_string_app.
Qed.

(** X19.  On a problem page, [https://leetcode.com/problems/<name>]
    followed by nothing or by a slash and anything, [loadProblemFromURL]
    sets the slug to [<name>] and the problem URL to
    [/problems/<name>/]; on a URL without [leetcode.com/problems/] it
    leaves both fields as they are. *)
Theorem loadProblemFromURL_problem_page
    (name tail : jsstring) (this : Location) :
  free_of 47 name = true ->
  (tail = [] \/ exists t, tail = 47 :: t) ->
  loadProblemFromURL (problems_prefix ++ name ++ tail) this
  = {| problemUrl := js "/problems/" ++ name ++ js "/"; slug := name |}
  /\ (forall url, includes_string problems_marker url = false ->
        loadProblemFromURL url this = this).
Proof.
  intros Hname Htail. split.
  - unfold loadProblemFromURL.
    rewrite includes_marker, problemName_canonical by assumption. reflexivity.
  - intros url Hurl. unfold loadProblemFromURL. by rewrite Hurl.
Qed.

Lemma loadProblemFromURL_problem_page_witness :
  free_of 47 (js "two-sum") = true
  /\ slug (loadProblemFromURL MoreExamples.two_sum_url
             {| problemUrl := []; slug := [] |}) = js "two-sum".
Proof.
  split; [reflexivity|].
  destruct (loadProblemFromURL_problem_page (js "two-sum")
              (js "/submissions/1774457019/") {| problemUrl := []; slug := [] |}
              eq_refl (or_intror (ex_intro _ _ eq_refl))) as [H _].
  change MoreExamples.two_sum_url
    with (problems_prefix ++ js "two-sum" ++ js "/submissions/1774457019/").
  by rewrite H.
Defined.

(** X20.  The description URL is a fixed point: for a URL with
    [leetcode.com/problems/], the URL [getDescriptionUrl] returns names
    the same problem, and asking for the description URL of that URL
    returns it again, with the same [problemUrl]. *)
Theorem getDescriptionUrl_round_trip (url : jsstring) (this : Location) :
  includes_string problems_marker url = true ->
  let r := getDescriptionUrl url this in
  problemName r.2 = problemName url
  /\ getDescriptionUrl r.2 r.1 = r
  /\ loadProblemFromURL r.2 this = loadProblemFromURL url this.
Proof.
  intros Hurl r. subst r. unfold getDescriptionUrl. rewrite Hurl. cbn [fst snd].
  assert (Hname : problemName (problems_prefix ++ problemName url
                               ++ js "/description/") = problemName url).
  { apply problemName_canonical; [apply nth0_split_is_free|].
    right. by eexists. }
  split; [exact Hname|]. split.
  - by rewrite includes_marker, Hname.
  - unfold loadProblemFromURL. by rewrite includes_marker, Hurl, Hname.
Qed.

Lemma getDescriptionUrl_round_trip_witness :
  includes_string problems_marker MoreExamples.two_sum_url = true
  /\ (getDescriptionUrl MoreExamples.two_sum_url
        {| problemUrl := []; slug := [] |}).2
     = js "https://leetcode.com/problems/two-sum/description/"
  /\ problemName (js "https://leetcode.com/problems/two-sum/description/")
     = problemName MoreExamples.two_sum_url.
Proof.
  split; [reflexivity|]. split; [reflexivity|].
  exact (proj1 (getDescriptionUrl_round_trip MoreExamples.two_sum_url
                  {| problemUrl := []; slug := [] |} eq_refl)).
Defined.

(** X21.  Only the [https] form of the address is stripped before the
    name is cut at the first slash.  For every [http://] URL the name
    is therefore [http:]: on such a page with [leetcode.com/problems/]
    in its URL, [loadProblemFromURL] sets the slug to [http:] and the
    problem URL to [/problems/http:/]. *)
Theorem loadProblemFromURL_http (rest : jsstring) (this : Location) :
  problemName (js "http://" ++ rest) = js "http:"
  /\ (includes_string problems_marker (js "http://" ++ rest) = true ->
      loadProblemFromURL (js "http://" ++ rest) this
      = {| problemUrl := js "/problems/http:/"; slug := js "http:" |}).
Proof.
  assert (Hname : problemName (js "http://" ++ rest) = js "http:").
  { unfold problemName.
    change (js "http://" ++ rest)
      with (104 :: 116 :: 116 :: 112 :: 58 :: 47 :: 47 :: rest).
    change (replace_first problems_prefix []
              (104 :: 116 :: 116 :: 112 :: 58 :: 47 :: 47 :: rest))
      with (104 :: 116 :: 116 :: 112 :: 58 :: 47 :: 47
            :: replace_first problems_prefix [] rest).
    rewrite !nth0_split_cons. reflexivity. }
  split; [exact Hname|].
  intros Hurl. unfold loadProblemFromURL. by rewrite Hurl, Hname.
Qed.

Lemma loadProblemFromURL_http_witness :
  includes_string problems_marker
    (js "http://" ++ js "leetcode.com/problems/two-sum/") = true
  /\ slug (loadProblemFromURL
             (js "http://" ++ js "leetcode.com/problems/two-sum/")
             {| problemUrl := []; slug := [] |}) = js "http:".
Proof.
  split; [reflexivity|].
  destruct (loadProblemFromURL_http (js "leetcode.com/problems/two-sum/")
              {| problemUrl := []; slug := [] |}) as [_ H].
  by rewrite (H eq_refl).
Defined.

Lemma concat_split sep s :
  concat (split sep s) = List.filter (fun c => negb (c =? sep)) s.
Proof.
  induction s as [|c s IH]; [reflexivity|]. simpl.
  destruct (c =? sep); simpl; [exact IH|].
  pose proof (split_nonempty sep s).
  destruct (split sep s) as [|seg segs]; [done|].
  simpl in *. by rewrite <- IH.
Qed.

Lemma replace_first_unit c r a b :
  free_of c a = true ->
  replace_first [c] [r] (a ++ c :: b) = a ++ r :: b.
Proof.
  induction a as [|d a IH]; simpl.
  - intros _. by rewrite N.eqb_refl.
  - intros [Hd Ha]%andb_true_iff. apply negb_true_iff in Hd.
    rewrite N.eqb_sym, Hd. simpl. by rewrite IH.
Qed.

Lemma replace_first_absent c r s :
  free_of c s = true -> replace_first [c] [r] s = s.
Proof.
  induction s as [|d s IH]; [reflexivity|]. simpl.
  intros [Hd Hs]%andb_true_iff. apply negb_true_iff in Hd.
  rewrite N.eqb_sym, Hd. simpl. by rewrite IH.
Qed.

Lemma filter_free c s :
  free_of c (List.filter (fun d => negb (d =? c)) s) = true.
Proof.
  induction s as [|d s IH]; [reflexivity|]. simpl.
  destruct (d =? c) eqn:E; simpl; [exact IH|]. by rewrite E.
Qed.

(** X22.  [formatProblemName] removes every space and turns the first
    dot, and only the first, into a dash: a name without a dot only
    loses its spaces, and in [a.b] with no dot in [a] the dots of [b]
    stay. *)
Theorem formatProblemName_shape (a b : jsstring) :
  let unspaced := List.filter (fun c => negb (c =? 32)) in
  free_of 46 a = true ->
  formatProblemName (a ++ 46 :: b) = unspaced a ++ 45 :: unspaced b
  /\ formatProblemName a = unspaced a
  /\ free_of 32 (formatProblemName (a ++ 46 :: b)) = true.
Proof.
  intros unspaced Ha. unfold formatProblemName.
  rewrite !concat_split, replace_first_unit, replace_first_absent by exact Ha.
  split; [|split].
  - unfold unspaced. by rewrite List.filter_app.
  - reflexivity.
  - apply filter_free.
Qed.

Lemma formatProblemName_shape_witness :
  free_of 46 (js "1") = true
  /\ formatProblemName (js "1. Two Sum") = js "1-TwoSum"
  /\ formatProblemName (js "1. Two. Sum") = js "1-Two.Sum".
Proof.
  split; [reflexivity|].
  split.
  - exact (proj1 (formatProblemName_shape (js "1") (js " Two Sum") eq_refl)).
  - reflexivity.
Defined.

(** X23.  A difficulty read by [extractDifficultyFromDOM] is always
    one [incrementCounter] accepts: it answers [true] and moves the
    counter of the first tier found in the order easy, medium, hard;
    when the page shows no difficulty the empty string is passed on and
    the call returns [undefined] without any effect. *)
Theorem extractDifficultyFromDOM_counts (easy_found medium_found hard_found : bool)
    (w : World) :
  let difficulty :=
    extractDifficultyFromDOM easy_found medium_found hard_found in
  let r := incrementCounter (Some difficulty) w in
  let c := counter (manager w) in
  let c' := counter (manager r.2) in
  r.1 = Normal (if easy_found || medium_found || hard_found
                then Some true else None)
  /\ easy c' = (if easy_found then js_increment (easy c) else easy c)
  /\ medium c' = (if negb easy_found && medium_found
                  then js_increment (medium c) else medium c)
  /\ hard c' = (if negb easy_found && negb medium_found && hard_found
                then js_increment (hard c) else hard c)
  /\ (easy_found || medium_found || hard_found = false -> r.2 = w).
Proof.
  destruct easy_found, medium_found, hard_found; cbv zeta;
    (split; [reflexivity|]); (split; [reflexivity|]);
    (split; [reflexivity|]); (split; [reflexivity|]);
    intros H; try discriminate H; by destruct w.
Qed.

End PageFacts.

(** * File names, once more *)

Section FileNameFacts.
Import Background Messages.

Lemma lang_star_class p s : lang (Star (Class p)) s <-> forallb p s = true.
Proof.
  split.
  - intros H. remember (Star (Class p)) as r eqn:Hr.
    induction H; try discriminate; [reflexivity|].
    injection Hr as ->. apply lang_class_inv in H as (c & -> & Hc).
    simpl. rewrite Hc. auto.
  - induction s as [|c s IH]; simpl; [constructor|].
    intros [Hc Hs]%andb_true_iff. change (c :: s) with ([c] ++ s).
    constructor; [by constructor|auto].
Qed.

Lemma lang_plus_class p s :
  lang (Plus (Class p)) s <-> s <> [] /\ forallb p s = true.
Proof.
  unfold Plus. split.
  - intros H. apply lang_cat_inv in H as (s1 & s2 & -> & H1 & H2).
    apply lang_class_inv in H1 as (c & -> & Hc).
    apply lang_star_class in H2. simpl. by rewrite Hc, H2.
  - intros [Hne Hall]. destruct s as [|c s]; [done|].
    simpl in Hall. apply andb_true_iff in Hall as [Hc Hs].
    change (c :: s) with ([c] ++ s).
    constructor; [by constructor|by apply lang_star_class].
Qed.

Lemma lang_rep_class p n s :
  lang (Rep n (Class p)) s <-> length s = n /\ forallb p s = true.
Proof.
  revert s. induction n as [|n IH]; intros s; simpl.
  - split.
    + intros ->%lang_eps_inv. done.
    + intros [Hl _]. destruct s; [constructor|done].
  - split.
    + intros H. apply lang_cat_inv in H as (s1 & s2 & -> & H1 & H2).
      apply lang_class_inv in H1 as (c & -> & Hc).
      apply IH in H2 as [<- Hs]. simpl. by rewrite Hc, Hs.
    + intros [Hl Hall]. destruct s as [|c s]; [done|].
      simpl in *. apply andb_true_iff in Hall as [Hc Hs].
      change (c :: s) with ([c] ++ s).
      constructor; [by constructor|]. apply IH. split; [lia|done].
Qed.

Lemma free_of_app c a b : free_of c (a ++ b) = free_of c a && free_of c b.
Proof. unfold free_of. apply forallb_app. Qed.

(** X24.  The scanner's pattern accepts exactly the names made of four
    digits, at least one white-space character, a non-empty stem, a dot
    and a non-empty extension, where stem and extension hold no line
    terminator.  In particular a name without a dot is never
    accepted. *)
Theorem problem_file_pattern_accepts (f : jsstring) :
  (matches problem_file_pattern f = true
   <-> exists digits spaces stem extension,
         f = digits ++ spaces ++ stem ++ 46 :: extension
         /\ length digits = 4%nat /\ forallb is_digit digits = true
         /\ spaces <> [] /\ forallb is_space spaces = true
         /\ stem <> [] /\ forallb is_dot stem = true
         /\ extension <> [] /\ forallb is_dot extension = true)
  /\ (free_of 46 f = true -> matches problem_file_pattern f = false).
Proof.
  assert (Hiff : matches problem_file_pattern f = true
   <-> exists digits spaces stem extension,
         f = digits ++ spaces ++ stem ++ 46 :: extension
         /\ length digits = 4%nat /\ forallb is_digit digits = true
         /\ spaces <> [] /\ forallb is_space spaces = true
         /\ stem <> [] /\ forallb is_dot stem = true
         /\ extension <> [] /\ forallb is_dot extension = true).
  { rewrite matches_lang. unfold problem_file_pattern. split.
    - intros H.
      apply lang_cat_inv in H as (ds & t1 & -> & Hd & H).
      apply lang_cat_inv in H as (ws & t2 & -> & Hw & H).
      apply lang_cat_inv in H as (stem & t3 & -> & Hs & H).
      apply lang_cat_inv in H as (dot & ext & -> & Hdot & He).
      apply lang_class_inv in Hdot as (c & -> & Hc).
      apply N.eqb_eq in Hc as ->.
      apply lang_rep_class in Hd as [Hl Hd].
      apply lang_plus_class in Hw as [Hw1 Hw2].
      apply lang_plus_class in Hs as [Hs1 Hs2].
      apply lang_plus_class in He as [He1 He2].
      exists ds, ws, stem, ext. auto 10.
    - intros (ds & ws & stem & ext & -> & Hl & Hd & Hw1 & Hw2 & Hs1 & Hs2
              & He1 & He2).
      constructor; [by apply lang_rep_class|].
      constructor; [by apply lang_plus_class|].
      constructor; [by apply lang_plus_class|].
      change (46 :: ext) with ([46] ++ ext).
      constructor; [by constructor|by apply lang_plus_class]. }
  split; [exact Hiff|].
  intros Hfree. destruct (matches problem_file_pattern f) eqn:E; [|reflexivity].
  destruct (proj1 Hiff eq_refl) as (ds & ws & stem & ext & -> & _).
  rewrite !free_of_app, free_of_cons in Hfree.
  simpl in Hfree. rewrite !andb_false_r in Hfree. discriminate Hfree.
Qed.

Lemma problem_file_pattern_examples :
  matches problem_file_pattern (js "0001 two-sum.py") = true
  /\ matches problem_file_pattern (js "0001 two-sum") = false
  /\ matches problem_file_pattern (js "001 two-sum.py") = false
  /\ matches problem_file_pattern (js "0001-two-sum.py") = false
  /\ matches problem_file_pattern (js "0001 .py") = false.
Proof. repeat split; reflexivity. Qed.

Lemma slug_prefix_shape f :
  matches_prefix slug_prefix_pattern f = true
  <-> exists d1 d2 d3 d4 w rest,
        f = d1 :: d2 :: d3 :: d4 :: w :: rest
        /\ is_digit d1 = true /\ is_digit d2 = true /\ is_digit d3 = true
        /\ is_digit d4 = true /\ is_space w = true.
Proof.
  split.
  - intros H. apply matches_prefix_lang in H as (p & q & -> & H).
    unfold slug_prefix_pattern in H.
    apply lang_cat_inv in H as (ds & ws & -> & Hd & Hw).
    apply lang_rep_class in Hd as [Hl Hd].
    apply lang_plus_class_inv in Hw as (w & ws' & -> & Hw).
    destruct ds as [|d1 [|d2 [|d3 [|d4 [|]]]]]; try discriminate Hl.
    simpl in Hd. rewrite !andb_true_iff in Hd.
    destruct Hd as (H1 & H2 & H3 & H4 & _).
    exists d1, d2, d3, d4, w, (ws' ++ q). simpl. auto 10.
  - intros (d1 & d2 & d3 & d4 & w & rest & -> & H1 & H2 & H3 & H4 & Hw).
    by apply slug_prefix_matches.
Qed.

Lemma drop_while_suffix {A} (q p : A -> bool) (l : list A) :
  forallb p l = true ->
  forallb p (drop_while q l) = true
  /\ (length (drop_while q l) <= length l)%nat.
Proof.
  induction l as [|a l IH]; simpl; [auto|].
  intros [Ha Hl]%andb_true_iff. destruct (q a); simpl.
  - destruct (IH Hl). split; [done|lia].
  - rewrite Ha, Hl. auto.
Qed.

Lemma strip_leading_zeros_digits ds :
  forallb is_digit ds = true ->
  forallb is_digit (strip_leading_zeros ds) = true
  /\ (1 <= length (strip_leading_zeros ds) <= Nat.max 1 (length ds))%nat.
Proof.
  intros Hds. unfold strip_leading_zeros.
  destruct (drop_while_suffix (fun c => c =? 48) is_digit ds Hds) as [Hall Hlen].
  destruct (drop_while (fun c => c =? 48) ds) as [|c r]; simpl in *.
  - split; [reflexivity|lia].
  - split; [exact Hall|lia].
Qed.

(** X25.  [convertGithubToLeetCodeSlug] gives the empty string exactly
    for the names that do not start with four digits and a white-space
    character, with or without an extension; for every other name it
    gives the four digits without their leading zeros, a string of one
    to four digits. *)
Theorem convertGithubToLeetCodeSlug_every_name (f : jsstring) :
  let starts_like_a_problem :=
    exists d1 d2 d3 d4 w rest,
      f = d1 :: d2 :: d3 :: d4 :: w :: rest
      /\ is_digit d1 = true /\ is_digit d2 = true /\ is_digit d3 = true
      /\ is_digit d4 = true /\ is_space w = true in
  (convertGithubToLeetCodeSlug f = [] <-> ~ starts_like_a_problem)
  /\ (starts_like_a_problem ->
      convertGithubToLeetCodeSlug f = strip_leading_zeros (take 4 f)
      /\ forallb is_digit (convertGithubToLeetCodeSlug f) = true
      /\ (1 <= length (convertGithubToLeetCodeSlug f) <= 4)%nat).
Proof.
  intros P. subst P.
  assert (Hyes : (exists d1 d2 d3 d4 w rest,
      f = d1 :: d2 :: d3 :: d4 :: w :: rest
      /\ is_digit d1 = true /\ is_digit d2 = true /\ is_digit d3 = true
      /\ is_digit d4 = true /\ is_space w = true) ->
      convertGithubToLeetCodeSlug f = strip_leading_zeros (take 4 f)
      /\ forallb is_digit (convertGithubToLeetCodeSlug f) = true
      /\ (1 <= length (convertGithubToLeetCodeSlug f) <= 4)%nat).
  { intros (d1 & d2 & d3 & d4 & w & rest & -> & H1 & H2 & H3 & H4 & Hw).
    assert (Hc : convertGithubToLeetCodeSlug (d1 :: d2 :: d3 :: d4 :: w :: rest)
                 = strip_leading_zeros [d1; d2; d3; d4]).
    { unfold convertGithubToLeetCodeSlug.
      rewrite slug_prefix_matches by assumption.
      apply (four_digits d1 d2 d3 d4 H1 H2 H3 H4). }
    rewrite Hc. split; [reflexivity|].
    destruct (strip_leading_zeros_digits [d1; d2; d3; d4]) as [Hall Hlen].
    { simpl. by rewrite H1, H2, H3, H4. }
    split; [exact Hall|]. simpl in Hlen. lia. }
  split; [|exact Hyes]. split.
  - intros Hempty Hshape. destruct (Hyes Hshape) as (_ & _ & Hlen).
    rewrite Hempty in Hlen. simpl in Hlen. lia.
  - intros Hno. unfold convertGithubToLeetCodeSlug.
    destruct (matches_prefix slug_prefix_pattern f) eqn:E; [|reflexivity].
    apply slug_prefix_shape in E. contradiction.
Qed.

Lemma convertGithubToLeetCodeSlug_every_name_witness :
  convertGithubToLeetCodeSlug (js "0042 trapping-rain-water") = js "42"
  /\ convertGithubToLeetCodeSlug (js "README.md") = [].
Proof.
  split.
  - destruct (convertGithubToLeetCodeSlug_every_name
                (js "0042 trapping-rain-water")) as [_ H].
    destruct H as (-> & _).
    + by exists 48, 48, 52, 50, 32, (js "trapping-rain-water").
    + reflexivity.
  - apply (convertGithubToLeetCodeSlug_every_name (js "README.md")).
    intros (d1 & d2 & d3 & d4 & w & rest & H & H1 & _).
    injection H as <- _. discriminate H1.
Defined.

End FileNameFacts.

(** * The scanner and the reconciliation, once more *)

Section ScannerMore.
Import Background.
Variable env : Env.

Lemma getAllLeetCodeProblems_run_count w :
  getAllLeetCodeProblems env w
  = (Normal (scan_result env w),
     after_requests
       match buildBasicGithubUrl w with
       | (Throw _, _) => 0
       | (Normal url, _) =>
           match fetch env (requests w) url with
           | Response true _ (JsonArray data) =>
               S (length (List.filter is_dir data))
           | _ => 1
           end
       end w).
Proof.
  unfold getAllLeetCodeProblems, scan_result, try_catch.
  unfold bind at 1.
  pose proof (buildBasicGithubUrl_world w) as Hw.
  destruct (buildBasicGithubUrl w) as [[url|e] w0]; simpl in Hw; subst w0.
  - unfold bind, js_fetch.
    destruct (fetch env (requests w) url) as [e|ok st body].
    + unfold ret, after_requests. by rewrite Nat.add_1_r.
    + destruct ok; simpl.
      * rewrite json_array_items.
        destruct body as [e| |data]; simpl;
          try (unfold ret, after_requests; by rewrite Nat.add_1_r).
        rewrite scan_folders_run. simpl.
        unfold after_requests. simpl. do 2 f_equal. lia.
      * unfold ret, after_requests. by rewrite Nat.add_1_r.
  - unfold ret, after_requests. rewrite Nat.add_0_r. by destruct w.
Qed.

(** X26.  A scan makes no request when the URL cannot be built, one
    request when the top-level listing fails, and otherwise one request
    for the top-level listing plus one for each directory entry in it,
    whether those succeed or not.  It changes nothing else: not the
    state manager, not storage, and it broadcasts nothing. *)
Theorem getAllLeetCodeProblems_requests (w : World) :
  let w' := (getAllLeetCodeProblems env w).2 in
  manager w' = manager w /\ storage w' = storage w /\ sent w' = sent w
  /\ requests w'
     = (requests w
        + match buildBasicGithubUrl w with
          | (Throw _, _) => 0
          | (Normal url, _) =>
              match fetch env (requests w) url with
              | Response true _ (JsonArray data) =>
                  S (length (List.filter is_dir data))
              | _ => 1
              end
          end)%nat.
Proof.
  intros w'. subst w'. rewrite getAllLeetCodeProblems_run_count.
  repeat split.
Qed.

(** X27.  Everything the scanner returns has a usable identifier: the
    pattern that admits a file guarantees that the identifier derived
    from its name is the four-digit prefix without leading zeros, never
    the empty string, and its language is the name of a directory entry
    of the top-level listing. *)
Theorem getAllLeetCodeProblems_identifiers (w : World) :
  Forall (fun p =>
            questionId p = strip_leading_zeros (take 4 (originalName p))
            /\ questionId p <> []
            /\ exists url st data folder,
                 fetch env (requests w) url = Response true st (JsonArray data)
                 /\ In folder data /\ is_dir folder = true
                 /\ language p = name folder)
    (scan_result env w)
  /\ (getAllLeetCodeProblems env w).1 = Normal (scan_result env w).
Proof.
  split; [|by rewrite getAllLeetCodeProblems_run_count].
  apply Forall_forall. intros p Hp. apply list_elem_of_In in Hp.
  unfold scan_result in Hp.
  destruct (buildBasicGithubUrl w) as [[url|e] w0]; [|done].
  destruct (fetch env (requests w) url) as [e|[] st [e| |data]] eqn:Htop;
    try done.
  apply scanned_origin in Hp as (i & folder & Hi & Hp).
  apply folder_files_origin in Hp
    as (st' & items & file & Hfetch & Hin & Hok & ->).
  unfold is_problem_file in Hok. apply andb_true_iff in Hok as [_ Hname].
  destruct (problem_file_shape _ Hname)
    as (d1 & d2 & d3 & d4 & ws & rest & Hf & H1 & H2 & H3 & H4 & Hw).
  simpl. rewrite Hf.
  assert (Hc : convertGithubToLeetCodeSlug (d1 :: d2 :: d3 :: d4 :: ws :: rest)
               = strip_leading_zeros [d1; d2; d3; d4]).
  { unfold convertGithubToLeetCodeSlug.
    rewrite slug_prefix_matches by assumption.
    apply (four_digits d1 d2 d3 d4 H1 H2 H3 H4). }
  rewrite Hc. split; [reflexivity|]. split.
  - unfold strip_leading_zeros.
    by destruct (drop_while (fun c => c =? 48) [d1; d2; d3; d4]).
  - exists url, st, data, folder.
    apply list_elem_of_lookup_2, list_elem_of_In, filter_In in Hi as [Hin' Hdir].
    auto.
Qed.

End ScannerMore.

Section TotalFacts.
Import Background Messages.

Lemma counts_as_exclusive d :
  ((if counts_as (js "easy") d then 1 else 0)
   + (if counts_as (js "medium") d then 1 else 0)
   + (if counts_as (js "hard") d then 1 else 0)
   = (if match d with Some s => is_tier_name s | None => false end
      then 1 else 0))%nat.
Proof.
  destruct d as [s|]; [|reflexivity]. unfold counts_as, is_tier_name.
  destruct (str_eqb (toLowerCase s) (js "easy")) eqn:E1.
  { apply str_eqb_eq in E1. by rewrite E1. }
  destruct (str_eqb (toLowerCase s) (js "medium")) eqn:E2.
  { apply str_eqb_eq in E2. by rewrite E2. }
  by destruct (str_eqb (toLowerCase s) (js "hard")).
Qed.

Lemma counted_split allQuestions problems :
  (length (List.filter (fun p => counts_as (js "easy") (tier_of allQuestions p))
             problems)
   + length (List.filter
               (fun p => counts_as (js "medium") (tier_of allQuestions p))
               problems)
   + length (List.filter (fun p => counts_as (js "hard") (tier_of allQuestions p))
               problems)
   = length (List.filter (counted allQuestions) problems))%nat.
Proof.
  induction problems as [|p ps IH]; [reflexivity|].
  cbn [List.filter]. unfold counted at 1.
  pose proof (counts_as_exclusive (tier_of allQuestions p)) as Hx.
  destruct (counts_as (js "easy") (tier_of allQuestions p)),
    (counts_as (js "medium") (tier_of allQuestions p)),
    (counts_as (js "hard") (tier_of allQuestions p)),
    (match tier_of allQuestions p with
     | Some s => is_tier_name s | None => false end);
    simpl in Hx; try discriminate Hx; simpl length; lia.
Qed.

Lemma filter_shorter {A} (p : A -> bool) (l : list A) :
  (length (List.filter p l) <= length l)%nat.
Proof.
  induction l as [|x l IH]; simpl; [lia|]. destruct (p x); simpl; lia.
Qed.

(** X28.  After a recount over fewer than 2^53 files the three counters
    add up to exactly the number of scanned files whose catalog
    difficulty is a tier name: each such file is counted once, under one
    tier. *)
Theorem reconcile_total_is_counted_files
    (problems : list ProblemFile) (allQuestions : list Question) :
  (Z.of_nat (length problems) < 2 ^ 53)%Z ->
  total (reconcile problems allQuestions)
  = Z.of_nat (length (List.filter (counted allQuestions) problems)).
Proof.
  intros Hsmall.
  destruct (reconcile_counts_files problems allQuestions) as (He & Hm & Hh).
  cbv zeta in *. unfold total. rewrite He, Hm, Hh.
  rewrite <- (counted_split allQuestions problems).
  pose proof (filter_shorter (A:=ProblemFile)) as Hlen.
  assert (Hle : forall p : ProblemFile -> bool,
            (length (List.filter p problems) <= length problems)%nat)
    by (intros p; apply Hlen).
  pose proof (Hle (fun p => counts_as (js "easy") (tier_of allQuestions p))).
  pose proof (Hle (fun p => counts_as (js "medium") (tier_of allQuestions p))).
  pose proof (Hle (fun p => counts_as (js "hard") (tier_of allQuestions p))).
  lia.
Qed.

Lemma reconcile_total_is_counted_files_witness :
  (Z.of_nat (length Examples.three_files) < 2 ^ 53)%Z
  /\ total (reconcile Examples.three_files Examples.catalog) = 2%Z.
Proof.
  assert (H : (Z.of_nat (length Examples.three_files) < 2 ^ 53)%Z)
    by (simpl; lia).
  split; [exact H|].
  rewrite (reconcile_total_is_counted_files _ Examples.catalog H).
  reflexivity.
Defined.

End TotalFacts.
